(** * ABI value-tree serializer (package abi): shallow embedding and properties

    The Go source walks a decoded ABI value tree ([ComponentValue]) and
    produces a JSON-ready [interface{}] value under a configurable policy
    set ([Serializer]).  The embedding keeps the shape of the source:

    - Go's [interface{}] results are the inductive [GoAny]; a
      [map[string]interface{}] is a [gmap string GoAny], a
      [[]interface{}] a list updated by index;
    - a Go call returning [(value, error)] is an [Outcome]: either it
      returns the pair, or it panics;
    - a [big.Int] is a [Z]; [int64] is [Z] with the wrap-around written out;
      [float64] is the IEEE-754 binary64 model [spec_float];
    - the [for i, child := range cv.Children] loops are [forRange], with an
      explicit loop state and early return. *)

From Stdlib Require Import ZArith String Ascii List Lia QArith Qpower.
From Stdlib Require Import Floats.SpecFloat DecimalString DecimalZ DecimalPos.
From Stdlib Require Import Strings.Byte.
From Stdlib Require HexadecimalString HexadecimalZ HexadecimalN.
From Stdlib Require DecimalFacts HexadecimalPos HexadecimalFacts.
From stdpp Require Import gmap strings list fin_maps vector.

Set Warnings "-register-all".
Local Open Scope Z_scope.

(** ** Results of the serializer: Go [interface{}] values *)

Inductive GoAny : Type :=
  | AnyNil
  | AnyString (str : string)
  | AnyBool (b : bool)
  | AnyFloat64 (f : spec_float)
  | AnySlice (l : list GoAny)
  | AnyMap (m : gmap string GoAny).

(** ** The external type-descriptor interface (TypeComponent)

    The descriptor is consumed through four methods only; a descriptor is
    the record of what they return. *)

Inductive ComponentType : Type :=
  | ElementaryComponent
  | FixedArrayComponent
  | DynamicArrayComponent
  | TupleComponent
  | OtherComponent (n : Z).

Inductive ElementaryTypeInfo : Type :=
  | ElementaryTypeInt
  | ElementaryTypeUint
  | ElementaryTypeAddress
  | ElementaryTypeBool
  | ElementaryTypeFixed
  | ElementaryTypeUfixed
  | ElementaryTypeBytes
  | ElementaryTypeFunction
  | ElementaryTypeString
  | ElementaryTypeOther (name : string).

Record TypeComponent : Type := mkTypeComponent {
  Component_ComponentType : ComponentType;
  Component_ElementaryType : ElementaryTypeInfo;
  Component_KeyName : string;
  Component_String : string
}.

(** ** Go runtime panics the walker can run into *)

Inductive Panic : Type :=
  | PanicInterfaceConversion (have want : string)
  | PanicBufferTooSmall
  | PanicNilDereference.

(** ** math/big, strconv, fmt and encoding/hex, as far as the walker uses them *)

(** [big.Int.String] and [strconv.FormatInt(_, 10)]: the base-10 text. *)
Definition BigInt_String (i : Z) : string :=
  NilZero.string_of_int (Z.to_int i).

(** Reading a base-10 text back (used to state that the text is exact). *)
Definition parse_base10 (str : string) : option Z :=
  Z.of_int <$> NilZero.int_of_string str.

(** [big.Int.Cmp]: -1, 0 or +1. *)
Definition BigInt_Cmp (x y : Z) : Z :=
  match x ?= y with
  | Lt => -1
  | Eq => 0
  | Gt => 1
  end.

(** Two's-complement reading of a 64-bit pattern. *)
Definition int64_wrap (v : Z) : Z := (v + 2 ^ 63) mod 2 ^ 64 - 2 ^ 63.

(** The low 64 bits of the magnitude ([low64(x.abs)]). *)
Definition low64 (x : Z) : Z := Z.land (Z.abs x) (Z.ones 64).

(** [big.Int.Int64]:
    [v := int64(low64(x.abs)); if x.neg { v = -v }; return v]. *)
Definition BigInt_Int64 (x : Z) : Z :=
  let v := int64_wrap (low64 x) in
  if x <? 0 then int64_wrap (- v) else v.

(** [float64(v)] for an [int64] [v]: round to nearest even in binary64. *)
Definition float64_of_int64 (v : Z) : spec_float :=
  binary_normalize 53 1024 v 0 false.

(** The rational a binary64 value denotes ([None] for NaN and infinities). *)
Definition float64_value (f : spec_float) : option Q :=
  match f with
  | S754_zero _ => Some 0%Q
  | S754_finite sgn m e =>
      Some (inject_Z (if sgn then Z.neg m else Z.pos m) * Qpower 2 e)%Q
  | S754_infinity _ | S754_nan => None
  end.

Definition byte_of_Z (z : Z) : byte :=
  default "000"%byte (Byte.of_N (Z.to_N (z mod 256))).

Definition Z_of_byte (b : byte) : Z := Z.of_N (Byte.to_N b).

(** The unsigned integer a big-endian byte sequence denotes. *)
Definition big_endian (l : list byte) : Z :=
  foldl (fun acc b => acc * 256 + Z_of_byte b) 0 l.

(** [big.Int.FillBytes] on a buffer of [n] bytes: the magnitude,
    big-endian and zero-extended; panics when it does not fit. *)
Definition BigInt_FillBytes {n : nat} (x : Z) (buf : vec byte n)
  : option (vec byte n) :=
  if Z.abs x <? 2 ^ (8 * Z.of_nat n)
  then Some (fun_to_vec (fun j : fin n =>
               byte_of_Z (Z.abs x / 256 ^ Z.of_nat (n - 1 - fin_to_nat j))))
  else None.

Definition hex_digit (n : Z) : ascii :=
  match n with
  | 0 => "0" | 1 => "1" | 2 => "2" | 3 => "3" | 4 => "4" | 5 => "5"
  | 6 => "6" | 7 => "7" | 8 => "8" | 9 => "9" | 10 => "a" | 11 => "b"
  | 12 => "c" | 13 => "d" | 14 => "e" | _ => "f"
  end%char.

(** [hex.EncodeToString]. *)
Fixpoint hex_EncodeToString (b : list byte) : string :=
  match b with
  | [] => EmptyString
  | x :: rest =>
      String (hex_digit (Z_of_byte x / 16))
        (String (hex_digit (Z_of_byte x mod 16)) (hex_EncodeToString rest))
  end.

(** [fmt.Sprintf("%s[%d]", breadcrumbs, i)]. *)
Definition Sprintf_s_d (breadcrumbs : string) (i : Z) : string :=
  (breadcrumbs +:+ "[" +:+ BigInt_String i +:+ "]")%string.

(** [fmt.Sprintf("%s[%s]", breadcrumbs, name)] for a string [name]. *)
Definition Sprintf_s_s (breadcrumbs name : string) : string :=
  (breadcrumbs +:+ "[" +:+ name +:+ "]")%string.

(** The [%s] verb applied to the [interface{}] read from [vm["name"]]: a
    string prints as itself, a missing key reads as the nil interface,
    which [fmt] prints as [%!s(<nil>)].  The walker puts nothing else
    under that key. *)
Definition fmt_s (v : option GoAny) : string :=
  match v with
  | Some (AnyString str) => str
  | _ => "%!s(<nil>)"%string
  end.

(** ** The provided strategies *)

Definition maxSafeJSONNumberInt : Z := 9007199254740991.
Definition minSafeJSONNumberInt : Z := -9007199254740991.

Definition Base10StringIntSerializer (i : Z) : GoAny :=
  AnyString (BigInt_String i).

Definition NumberIfFitsOrBase10StringIntSerializer (i : Z) : GoAny :=
  if (BigInt_Cmp i maxSafeJSONNumberInt >? 0)
     || (BigInt_Cmp i minSafeJSONNumberInt <? 0)
  then AnyString (BigInt_String i)
  else AnyFloat64 (float64_of_int64 (BigInt_Int64 i)).

Definition HexByteSerializer (b : list byte) : GoAny :=
  AnyString (hex_EncodeToString b).

Definition HexByteSerializer0xPrefix (b : list byte) : GoAny :=
  AnyString ("0x" +:+ hex_EncodeToString b)%string.

Definition NumericDefaultNameGenerator (idx : Z) : string :=
  BigInt_String idx.

(** [big.Int.Text(16)]: the base-16 text, lower case, with a leading
    minus sign for a negative number. *)
Definition BigInt_Text16 (i : Z) : string :=
  HexadecimalString.NilZero.string_of_int (Z.to_hex_int i).

Definition HexIntSerializer0xPrefix (i : Z) : GoAny :=
  let absHi := Z.abs i in
  let sign := if i <? 0 then "-"%string else ""%string in
  AnyString (sign +:+ "0x" +:+ BigInt_Text16 absHi)%string.

(** Reading back a base-16 text with the [0x] prefix after the sign. *)
Definition parse_base16_0x (str : string) : option Z :=
  match str with
  | String "-" (String "0" (String "x" digits)) =>
      (fun d => - Z.of_hex_uint d)
        <$> HexadecimalString.NilZero.uint_of_string digits
  | String "0" (String "x" digits) =>
      Z.of_hex_uint <$> HexadecimalString.NilZero.uint_of_string digits
  | _ => None
  end.

(** The value of a base-16 digit, found as [encoding/hex] finds it: from
    the range the character code lies in. *)
Definition hex_value (c : ascii) : option Z :=
  let code := Z.of_N (N_of_ascii c) in
  if (48 <=? code) && (code <=? 57) then Some (code - 48)
  else if (97 <=? code) && (code <=? 102) then Some (code - 87)
  else if (65 <=? code) && (code <=? 70) then Some (code - 55)
  else None.

(** Reading back what [hex.EncodeToString] writes: two digits a byte. *)
Fixpoint hex_decode (str : string) : option (list byte) :=
  match str with
  | EmptyString => Some []
  | String hi (String lo rest) =>
      match hex_value hi, hex_value lo, hex_decode rest with
      | Some h, Some l, Some b => Some (byte_of_Z (16 * h + l) :: b)
      | _, _, _ => None
      end
  | String _ EmptyString => None
  end.

(** ** FormattingMode *)

Definition FormatAsObjects : Z := 0.
Definition FormatAsFlatArrays : Z := 1.
Definition FormatAsSelfDescribingArrays : Z := 2.

(** ** The value tree, the policy set and the walker

    [big.Float] and [encoding/json] are external to the package: the
    development is parametric in the type of arbitrary-precision floats,
    in their [String] method and in the two marshalling functions. *)

Section Walker.

Variable BigFloat : Type.
Variable BigFloat_String : BigFloat -> string.

(** The dynamic value held by [cv.Value] (an [interface{}]).  A pointer
    is modelled by what it points to: [ValueBigInt] and [ValueBigFloat]
    are non-nil pointers. *)
Inductive GoValue : Type :=
  | ValueNil
  | ValueBigInt (i : Z)
  | ValueBigFloat (f : BigFloat)
  | ValueBytes (b : list byte)
  | ValueString (str : string)
  | ValueOther (dynamicType : string).

(** The name of the dynamic type, as the runtime prints it. *)
Definition dynamicTypeName (v : GoValue) : string :=
  match v with
  | ValueNil => "nil"
  | ValueBigInt _ => "*big.Int"
  | ValueBigFloat _ => "*big.Float"
  | ValueBytes _ => "[]uint8"
  | ValueString _ => "string"
  | ValueOther t => t
  end%string.

(** A node of the value tree.  The descriptor is the interface value
    [cv.Component]: [None] is the nil interface, [Some c] a descriptor
    whose methods return the fields of [c].

    Scope of the model: nodes and children are non-nil pointers, and a
    descriptor that is not the nil interface can be used.  A nil node, a
    nil child, a typed-nil descriptor, and a nil [big.Int] or [big.Float]
    under [cv.Value], on each of which the Go walker panics with a nil
    dereference, are not trees of the model; likewise the strategies of a
    [Serializer] are set (the address strategy apart, which may be nil)
    and return a value.  The properties below that speak of every tree,
    or of every panic, speak of these trees and policy sets. *)
Inductive ComponentValue : Type :=
  mkComponentValue (component : option TypeComponent)
                   (children : list ComponentValue)
                   (value : GoValue).

Definition Component (cv : ComponentValue) : option TypeComponent :=
  match cv with mkComponentValue c _ _ => c end.
Definition Children (cv : ComponentValue) : list ComponentValue :=
  match cv with mkComponentValue _ ch _ => ch end.
Definition Value (cv : ComponentValue) : GoValue :=
  match cv with mkComponentValue _ _ v => v end.

(** Errors are [i18n.NewError(ctx, key, inserts...)]: a message key and
    the inserted parameters. *)
Inductive MessageKey : Type :=
  | MsgBadABITypeComponent
  | MsgUnknownABIElementaryType
  | MsgUnknownTupleSerializer.

Inductive Insert : Type :=
  | InsertComponentValue (cv : ComponentValue)
  | InsertComponent (c : TypeComponent)
  | InsertElementaryType (et : ElementaryTypeInfo)
  | InsertBreadcrumbs (breadcrumbs : string)
  | InsertFormattingMode (ts : Z).

Inductive error : Type :=
  | NewError (key : MessageKey) (inserts : list Insert)
  | ExternalError (msg : string).

(** [json.Marshal] and [json.MarshalIndent(_, "", "  ")]: bytes (or the nil
    slice) and an error. *)
Variable json_Marshal : GoAny -> option (list byte) * option error.
Variable json_MarshalIndent : GoAny -> option (list byte) * option error.

(** A call returning [(A, error)]: it returns the pair ([None] is the nil
    error), or it panics. *)
Inductive Outcome (A : Type) : Type :=
  | Returns (out : A) (err : option error)
  | Panics (p : Panic).
Arguments Returns {A} out err.
Arguments Panics {A} p.

(** The field [is] of the source is [is_] here ([is] is reserved). *)
Record Serializer : Type := mkSerializer {
  ts : Z;
  is_ : Z -> GoAny;
  fs : BigFloat -> GoAny;
  bs : list byte -> GoAny;
  dn : Z -> string;
  ad : option (vec byte 20 -> GoAny);
  pretty : bool
}.

Definition Base10StringFloatSerializer (f : BigFloat) : GoAny :=
  AnyString (BigFloat_String f).

Definition NewSerializer : Serializer :=
  {| ts := FormatAsObjects;
     is_ := Base10StringIntSerializer;
     fs := Base10StringFloatSerializer;
     bs := HexByteSerializer;
     dn := NumericDefaultNameGenerator;
     ad := None;
     pretty := false |}.

Definition SetFormattingMode (s : Serializer) (ts' : Z) : Serializer :=
  {| ts := ts'; is_ := is_ s; fs := fs s; bs := bs s; dn := dn s; ad := ad s;
     pretty := pretty s |}.

Definition SetIntSerializer (s : Serializer) (is' : Z -> GoAny) : Serializer :=
  {| ts := ts s; is_ := is'; fs := fs s; bs := bs s; dn := dn s; ad := ad s;
     pretty := pretty s |}.

Definition SetAddressSerializer (s : Serializer)
    (ad' : option (vec byte 20 -> GoAny)) : Serializer :=
  {| ts := ts s; is_ := is_ s; fs := fs s; bs := bs s; dn := dn s; ad := ad';
     pretty := pretty s |}.

Definition SetFloatSerializer (s : Serializer) (fs' : BigFloat -> GoAny)
  : Serializer :=
  {| ts := ts s; is_ := is_ s; fs := fs'; bs := bs s; dn := dn s; ad := ad s;
     pretty := pretty s |}.

Definition SetByteSerializer (s : Serializer) (bs' : list byte -> GoAny)
  : Serializer :=
  {| ts := ts s; is_ := is_ s; fs := fs s; bs := bs'; dn := dn s; ad := ad s;
     pretty := pretty s |}.

Definition SetDefaultNameGenerator (s : Serializer) (dn' : Z -> string)
  : Serializer :=
  {| ts := ts s; is_ := is_ s; fs := fs s; bs := bs s; dn := dn'; ad := ad s;
     pretty := pretty s |}.

Definition SetPretty (s : Serializer) (pretty' : bool) : Serializer :=
  {| ts := ts s; is_ := is_ s; fs := fs s; bs := bs s; dn := dn s; ad := ad s;
     pretty := pretty' |}.

(** *** Unchecked type assertions [cv.Value.(T)] *)

Definition assertBigInt (v : GoValue) : Panic + Z :=
  match v with
  | ValueBigInt i => inr i
  | _ => inl (PanicInterfaceConversion (dynamicTypeName v) "*big.Int")
  end.

Definition assertBigFloat (v : GoValue) : Panic + BigFloat :=
  match v with
  | ValueBigFloat f => inr f
  | _ => inl (PanicInterfaceConversion (dynamicTypeName v) "*big.Float")
  end.

Definition assertBytes (v : GoValue) : Panic + list byte :=
  match v with
  | ValueBytes b => inr b
  | _ => inl (PanicInterfaceConversion (dynamicTypeName v) "[]uint8")
  end.

Definition assertString (v : GoValue) : Panic + string :=
  match v with
  | ValueString str => inr str
  | _ => inl (PanicInterfaceConversion (dynamicTypeName v) "string")
  end.

(** *** serializeElementaryType *)

Definition serializeElementaryType (s : Serializer) (breadcrumbs : string)
    (cv : ComponentValue) : Outcome GoAny :=
  match Component cv with
  | None => Panics PanicNilDereference
  | Some c =>
  match Component_ElementaryType c with
  | ElementaryTypeInt | ElementaryTypeUint =>
      match assertBigInt (Value cv) with
      | inl p => Panics p
      | inr i => Returns (is_ s i) None
      end
  | ElementaryTypeAddress =>
      match assertBigInt (Value cv) with
      | inl p => Panics p
      | inr i =>
          match BigInt_FillBytes i (vreplicate 20 "000"%byte) with
          | None => Panics PanicBufferTooSmall
          | Some addr =>
              match ad s with
              | None => Returns (bs s (vec_to_list addr)) None
              | Some adf => Returns (adf addr) None
              end
          end
      end
  | ElementaryTypeBool =>
      match assertBigInt (Value cv) with
      | inl p => Panics p
      | inr i => Returns (AnyBool (BigInt_Int64 i =? 1)) None
      end
  | ElementaryTypeFixed | ElementaryTypeUfixed =>
      match assertBigFloat (Value cv) with
      | inl p => Panics p
      | inr f => Returns (fs s f) None
      end
  | ElementaryTypeBytes | ElementaryTypeFunction =>
      match assertBytes (Value cv) with
      | inl p => Panics p
      | inr b => Returns (bs s b) None
      end
  | ElementaryTypeString =>
      match assertString (Value cv) with
      | inl p => Panics p
      | inr str => Returns (AnyString str) None
      end
  | ElementaryTypeOther _ =>
      Returns AnyNil
        (Some (NewError MsgUnknownABIElementaryType
                 [InsertElementaryType (Component_ElementaryType c);
                  InsertBreadcrumbs breadcrumbs]))
  end
  end.

(** *** The [for i, child := range cv.Children] loop

    The body sees the index, the child and the loop state; it either goes
    on with a new state or returns from the enclosing function. *)

Inductive LoopStep (St R : Type) : Type :=
  | Continue (st : St)
  | Return (r : R).
Arguments Continue {St R} st.
Arguments Return {St R} r.

Definition forRange {St R : Type}
    (body : nat -> ComponentValue -> St -> LoopStep St R)
  : nat -> list ComponentValue -> St -> LoopStep St R :=
  fix loop (i : nat) (l : list ComponentValue) (st : St) :=
    match l with
    | [] => Continue st
    | child :: rest =>
        match body i child st with
        | Continue st' => loop (S i) rest st'
        | Return r => Return r
        end
    end.

(** [v, err := s.walkOutput(...); if err != nil { return nil, err }]
    followed by the rest of the loop body. *)
Definition walkChild {St : Type} (o : Outcome GoAny) (k : GoAny -> St)
  : LoopStep St (Outcome GoAny) :=
  match o with
  | Panics p => Return (Panics p)
  | Returns _ (Some e) => Return (Returns AnyNil (Some e))
  | Returns v None => Continue (k v)
  end.

Definition finish {St : Type} (r : LoopStep St (Outcome GoAny))
    (k : St -> GoAny) : Outcome GoAny :=
  match r with
  | Continue out => Returns (k out) None
  | Return o => o
  end.

(** *** serializeArray and serializeTuple, open in the recursive call *)

Section Open.

Variable s : Serializer.
Variable walk : string -> ComponentValue -> Outcome GoAny.

Definition serializeArrayWith (breadcrumbs : string) (cv : ComponentValue)
  : Outcome GoAny :=
  let out := replicate (length (Children cv)) AnyNil in
  finish
    (forRange (fun i child out =>
       walkChild (walk (Sprintf_s_d breadcrumbs (Z.of_nat i)) child)
         (fun v => <[i := v]> out))
       0%nat (Children cv) out)
    AnySlice.

(** The tuple-element map [vm] of the self-describing mode, as it stands
    when the child is walked. *)
Definition describeChild (i : nat) (child : ComponentValue)
  : gmap string GoAny :=
  let vm : gmap string GoAny := ∅ in
  let vm :=
    match Component child with
    | Some c =>
        <["type" := AnyString (Component_String c)]>
          (<["name" := AnyString (Component_KeyName c)]> vm)
    | None => vm
    end in
  match vm !! "name"%string with
  | Some (AnyString EmptyString) =>
      <["name" := AnyString (dn s (Z.of_nat i))]> vm
  | _ => vm
  end.

Definition serializeTupleWith (breadcrumbs : string) (cv : ComponentValue)
  : Outcome GoAny :=
  if ts s =? FormatAsObjects then
    let out : gmap string GoAny := ∅ in
    finish
      (forRange (fun i child out =>
         match Component child with
         | Some c =>
             let name := Component_KeyName c in
             let name :=
               if String.eqb name "" then dn s (Z.of_nat i) else name in
             walkChild (walk (Sprintf_s_s breadcrumbs name) child)
               (fun v => <[name := v]> out)
         | None => Continue out
         end)
         0%nat (Children cv) out)
      AnyMap
  else if ts s =? FormatAsFlatArrays then
    let out := replicate (length (Children cv)) AnyNil in
    finish
      (forRange (fun i child out =>
         walkChild (walk (Sprintf_s_d breadcrumbs (Z.of_nat i)) child)
           (fun v => <[i := v]> out))
         0%nat (Children cv) out)
      AnySlice
  else if ts s =? FormatAsSelfDescribingArrays then
    let out := replicate (length (Children cv)) AnyNil in
    finish
      (forRange (fun i child out =>
         let vm := describeChild i child in
         walkChild
           (walk (Sprintf_s_s breadcrumbs (fmt_s (vm !! "name"%string))) child)
           (fun v => <[i := AnyMap (<["value" := v]> vm)]> out))
         0%nat (Children cv) out)
      AnySlice
  else
    Returns AnyNil
      (Some (NewError MsgUnknownTupleSerializer [InsertFormattingMode (ts s)])).

End Open.

(** *** walkOutput *)

Fixpoint walkOutput (s : Serializer) (breadcrumbs : string)
    (cv : ComponentValue) {struct cv} : Outcome GoAny :=
  match Component cv with
  | None =>
      Returns AnyNil
        (Some (NewError MsgBadABITypeComponent [InsertComponentValue cv]))
  | Some c =>
      match Component_ComponentType c with
      | ElementaryComponent => serializeElementaryType s breadcrumbs cv
      | FixedArrayComponent | DynamicArrayComponent =>
          serializeArrayWith (walkOutput s) breadcrumbs cv
      | TupleComponent => serializeTupleWith s (walkOutput s) breadcrumbs cv
      | OtherComponent _ =>
          Returns AnyNil
            (Some (NewError MsgBadABITypeComponent [InsertComponent c]))
      end
  end.

Definition serializeArray (s : Serializer) (breadcrumbs : string)
    (cv : ComponentValue) : Outcome GoAny :=
  serializeArrayWith (walkOutput s) breadcrumbs cv.

Definition serializeTuple (s : Serializer) (breadcrumbs : string)
    (cv : ComponentValue) : Outcome GoAny :=
  serializeTupleWith s (walkOutput s) breadcrumbs cv.

(** *** Entry points *)

Definition SerializeInterfaceCtx (s : Serializer) (cv : ComponentValue)
  : Outcome GoAny :=
  walkOutput s "" cv.

Definition SerializeInterface (s : Serializer) (cv : ComponentValue)
  : Outcome GoAny :=
  SerializeInterfaceCtx s cv.

Definition SerializeJSONCtx (s : Serializer) (cv : ComponentValue)
  : Outcome (option (list byte)) :=
  match walkOutput s "" cv with
  | Panics p => Panics p
  | Returns _ (Some e) => Returns None (Some e)
  | Returns v None =>
      let '(b, err) :=
        if pretty s then json_MarshalIndent v else json_Marshal v in
      Returns b err
  end.

Definition SerializeJSON (s : Serializer) (cv : ComponentValue)
  : Outcome (option (list byte)) :=
  SerializeJSONCtx s cv.

End Walker.

Arguments ValueNil {BigFloat}.
Arguments ValueBigInt {BigFloat} i.
Arguments ValueBigFloat {BigFloat} f.
Arguments ValueBytes {BigFloat} b.
Arguments ValueString {BigFloat} str.
Arguments ValueOther {BigFloat} dynamicType.
Arguments dynamicTypeName {BigFloat} v.
Arguments mkComponentValue {BigFloat} component children value.
Arguments Component {BigFloat} cv.
Arguments Children {BigFloat} cv.
Arguments Value {BigFloat} cv.
Arguments InsertComponentValue {BigFloat} cv.
Arguments InsertComponent {BigFloat} c.
Arguments InsertElementaryType {BigFloat} et.
Arguments InsertBreadcrumbs {BigFloat} breadcrumbs.
Arguments InsertFormattingMode {BigFloat} ts.
Arguments NewError {BigFloat} key inserts.
Arguments ExternalError {BigFloat} msg.
Arguments Returns {BigFloat A} out err.
Arguments Panics {BigFloat A} p.
Arguments mkSerializer {BigFloat}.
Arguments ts {BigFloat} s.
Arguments is_ {BigFloat} s.
Arguments fs {BigFloat} s.
Arguments bs {BigFloat} s.
Arguments dn {BigFloat} s.
Arguments ad {BigFloat} s.
Arguments pretty {BigFloat} s.
Arguments NewSerializer {BigFloat} BigFloat_String.
Arguments SetFormattingMode {BigFloat} s ts'.
Arguments SetIntSerializer {BigFloat} s is'.
Arguments SetAddressSerializer {BigFloat} s ad'.
Arguments SetFloatSerializer {BigFloat} s fs'.
Arguments SetByteSerializer {BigFloat} s bs'.
Arguments SetDefaultNameGenerator {BigFloat} s dn'.
Arguments SetPretty {BigFloat} s pretty'.
Arguments Continue {St R} st.
Arguments Return {St R} r.
Arguments forRange {BigFloat St R} body _ _ _.
Arguments walkChild {BigFloat St} o k.
Arguments finish {BigFloat St} r k.
Arguments describeChild {BigFloat} s i child.
Arguments serializeElementaryType {BigFloat} s breadcrumbs cv.
Arguments serializeArrayWith {BigFloat} walk breadcrumbs cv.
Arguments serializeTupleWith {BigFloat} s walk breadcrumbs cv.
Arguments walkOutput {BigFloat} s breadcrumbs cv.
Arguments serializeArray {BigFloat} s breadcrumbs cv.
Arguments serializeTuple {BigFloat} s breadcrumbs cv.
Arguments SerializeInterfaceCtx {BigFloat} s cv.
Arguments SerializeInterface {BigFloat} s cv.
Arguments SerializeJSONCtx {BigFloat} json_Marshal json_MarshalIndent s cv.
Arguments SerializeJSON {BigFloat} json_Marshal json_MarshalIndent s cv.

(** ** Vocabulary of the specification *)

(** The shape of decoded value an elementary kind requires. *)
Inductive Shape : Type :=
  | ShapeInteger
  | ShapeFloat
  | ShapeBytes
  | ShapeText.

Definition requiredShape (et : ElementaryTypeInfo) : option Shape :=
  match et with
  | ElementaryTypeInt | ElementaryTypeUint
  | ElementaryTypeAddress | ElementaryTypeBool => Some ShapeInteger
  | ElementaryTypeFixed | ElementaryTypeUfixed => Some ShapeFloat
  | ElementaryTypeBytes | ElementaryTypeFunction => Some ShapeBytes
  | ElementaryTypeString => Some ShapeText
  | ElementaryTypeOther _ => None
  end.

Definition shapeOf {BigFloat : Type} (v : GoValue BigFloat) : option Shape :=
  match v with
  | ValueBigInt _ => Some ShapeInteger
  | ValueBigFloat _ => Some ShapeFloat
  | ValueBytes _ => Some ShapeBytes
  | ValueString _ => Some ShapeText
  | ValueNil | ValueOther _ => None
  end.

Definition shapeTypeName (sh : Shape) : string :=
  match sh with
  | ShapeInteger => "*big.Int"
  | ShapeFloat => "*big.Float"
  | ShapeBytes => "[]uint8"
  | ShapeText => "string"
  end.

(** The call came back with a non-nil error. *)
Definition failsWithError {BigFloat A : Type} (o : Outcome BigFloat A) : Prop :=
  exists out e, o = Returns out (Some e).



(** The name a tuple field goes by: the declared field name, or
    [DefaultName(index)] if that is empty or the descriptor is nil. *)
Definition resolvedName {BigFloat : Type} (s : Serializer BigFloat) (i : nat)
    (child : ComponentValue BigFloat) : string :=
  match Component child with
  | Some c =>
      if String.eqb (Component_KeyName c) "" then dn s (Z.of_nat i)
      else Component_KeyName c
  | None => dn s (Z.of_nat i)
  end.

(** The name a field with descriptor [c] at index [i] goes by. *)
Definition fieldName {BigFloat : Type} (s : Serializer BigFloat) (i : nat)
    (c : TypeComponent) : string :=
  if String.eqb (Component_KeyName c) "" then dn s (Z.of_nat i)
  else Component_KeyName c.

(** The self-describing entry of a child with descriptor [c] at index [i]
    whose encoded value is [v]: the three keys [name], [type] and [value],
    and no other. *)
Definition describedEntry {BigFloat : Type} (s : Serializer BigFloat)
    (i : nat) (c : TypeComponent) (v : GoAny) : GoAny :=
  AnyMap (<["value"%string := v]>
            (<["name"%string := AnyString (fieldName s i c)]>
               (<["type"%string := AnyString (Component_String c)]> ∅))).

(** The children an object is built from, in order, each with its resolved
    name: those with a nil descriptor are left out.  [i] is the index of
    the first child of [l]. *)
Fixpoint namedChildrenFrom {BigFloat : Type} (s : Serializer BigFloat)
    (i : nat) (l : list (ComponentValue BigFloat))
  : list (string * ComponentValue BigFloat) :=
  match l with
  | [] => []
  | child :: rest =>
      match Component child with
      | Some _ =>
          (resolvedName s i child, child) :: namedChildrenFrom s (S i) rest
      | None => namedChildrenFrom s (S i) rest
      end
  end.

Definition namedChildren {BigFloat : Type} (s : Serializer BigFloat)
    (l : list (ComponentValue BigFloat))
  : list (string * ComponentValue BigFloat) :=
  namedChildrenFrom s 0 l.

(** The object built by inserting the bindings in order. *)
Definition objectOf (bindings : list (string * GoAny)) : gmap string GoAny :=
  foldl (fun m kv => <[kv.1 := kv.2]> m) ∅ bindings.

(** Field [i] of a tuple walked under [breadcrumbs] in a named mode does
    not stop the walk: it encodes, or (objects mode) it is skipped. *)
Definition fieldPasses {BigFloat : Type} (s : Serializer BigFloat)
    (breadcrumbs : string) (i : nat) (child : ComponentValue BigFloat) : Prop :=
  (ts s = FormatAsObjects /\ Component child = None) \/
  exists v,
    walkOutput s (Sprintf_s_s breadcrumbs (resolvedName s i child)) child
    = Returns v None.

(** *** Positional notation

    The text of a natural number in a base up to 16: its digits from the
    most significant one, each below the base, at least one of them, the
    first not zero unless it is the only one.  A digit below ten is
    written as the character of code 48 plus the digit, a digit from ten
    on in lower case, as the character of code 87 plus the digit. *)

Definition digit_char (d : Z) : ascii :=
  ascii_of_N (Z.to_N (if d <? 10 then 48 + d else 87 + d)).

Definition digits_text (ds : list Z) : string :=
  foldr (fun d rest => String (digit_char d) rest) EmptyString ds.

Definition digits_value (base : Z) (ds : list Z) : Z :=
  foldl (fun acc d => acc * base + d) 0 ds.

Definition positional (base : Z) (ds : list Z) (n : Z) : Prop :=
  Forall (fun d => 0 <= d < base) ds
  /\ digits_value base ds = n
  /\ match ds with
     | [] => False
     | [_] => True
     | d :: _ => d <> 0
     end.

(** The two digits of a byte, high half first. *)
Definition byte_digits (b : list byte) : list Z :=
  flat_map (fun x => [Z_of_byte x / 16; Z_of_byte x mod 16]) b.

(** The digits of the library's decimal and hexadecimal numerals. *)
Fixpoint Decimal_digits (u : Decimal.uint) : list Z :=
  match u with
  | Decimal.Nil => []
  | Decimal.D0 u => 0 :: Decimal_digits u
  | Decimal.D1 u => 1 :: Decimal_digits u
  | Decimal.D2 u => 2 :: Decimal_digits u
  | Decimal.D3 u => 3 :: Decimal_digits u
  | Decimal.D4 u => 4 :: Decimal_digits u
  | Decimal.D5 u => 5 :: Decimal_digits u
  | Decimal.D6 u => 6 :: Decimal_digits u
  | Decimal.D7 u => 7 :: Decimal_digits u
  | Decimal.D8 u => 8 :: Decimal_digits u
  | Decimal.D9 u => 9 :: Decimal_digits u
  end.

Fixpoint Hexadecimal_digits (u : Hexadecimal.uint) : list Z :=
  match u with
  | Hexadecimal.Nil => []
  | Hexadecimal.D0 u => 0 :: Hexadecimal_digits u
  | Hexadecimal.D1 u => 1 :: Hexadecimal_digits u
  | Hexadecimal.D2 u => 2 :: Hexadecimal_digits u
  | Hexadecimal.D3 u => 3 :: Hexadecimal_digits u
  | Hexadecimal.D4 u => 4 :: Hexadecimal_digits u
  | Hexadecimal.D5 u => 5 :: Hexadecimal_digits u
  | Hexadecimal.D6 u => 6 :: Hexadecimal_digits u
  | Hexadecimal.D7 u => 7 :: Hexadecimal_digits u
  | Hexadecimal.D8 u => 8 :: Hexadecimal_digits u
  | Hexadecimal.D9 u => 9 :: Hexadecimal_digits u
  | Hexadecimal.Da u => 10 :: Hexadecimal_digits u
  | Hexadecimal.Db u => 11 :: Hexadecimal_digits u
  | Hexadecimal.Dc u => 12 :: Hexadecimal_digits u
  | Hexadecimal.Dd u => 13 :: Hexadecimal_digits u
  | Hexadecimal.De u => 14 :: Hexadecimal_digits u
  | Hexadecimal.Df u => 15 :: Hexadecimal_digits u
  end.



(** The nodes of a tree, the root first. *)
Fixpoint nodes {BigFloat : Type} (cv : ComponentValue BigFloat)
  : list (ComponentValue BigFloat) :=
  match cv with
  | mkComponentValue _ children _ => cv :: flat_map nodes children
  end.

(** The three formatting modes the tuple encoder knows. *)
Definition knownMode (mode : Z) : Prop :=
  mode = FormatAsObjects \/ mode = FormatAsFlatArrays
  \/ mode = FormatAsSelfDescribingArrays.

(** Two outcomes that differ at most in the inserts of their error. *)
Definition sameButInserts {BigFloat : Type}
    (o o' : Outcome BigFloat GoAny) : Prop :=
  match o, o' with
  | Returns v None, Returns v' None => v = v'
  | Returns v (Some (NewError key _)), Returns v' (Some (NewError key' _)) =>
      v = v' /\ key = key'
  | Panics p, Panics p' => p = p'
  | _, _ => False
  end.

(** ** Example trees

    The examples hold integers and text only; their float type has the
    single value zero. *)

Definition exampleSerializer : Serializer unit :=
  NewSerializer (fun _ => "0"%string).

Definition elementary (et : ElementaryTypeInfo) (name signature : string)
    (v : GoValue unit) : ComponentValue unit :=
  mkComponentValue
    (Some (mkTypeComponent ElementaryComponent et name signature)) [] v.

Definition tupleOf (name signature : string)
    (fields : list (ComponentValue unit)) : ComponentValue unit :=
  mkComponentValue
    (Some (mkTypeComponent TupleComponent (ElementaryTypeOther "") name
             signature))
    fields ValueNil.

Definition arrayOf (name signature : string)
    (elements : list (ComponentValue unit)) : ComponentValue unit :=
  mkComponentValue
    (Some (mkTypeComponent DynamicArrayComponent (ElementaryTypeOther "") name
             signature))
    elements ValueNil.

(** A node whose descriptor is nil. *)
Definition undescribed : ComponentValue unit :=
  mkComponentValue None [] ValueNil.


(** An elementary node of an unrecognized kind. *)
Definition oddKind (name : string) : ComponentValue unit :=
  elementary (ElementaryTypeOther "odd") name "odd" ValueNil.

(** An Int node holding text instead of an integer. *)
Definition mistypedInt : ComponentValue unit :=
  elementary ElementaryTypeInt "n" "int256" (ValueString "abc").

Definition addressNode (i : Z) : ComponentValue unit :=
  elementary ElementaryTypeAddress "to" "address" (ValueBigInt i).

Definition fieldA : ComponentValue unit :=
  elementary ElementaryTypeUint "a" "uint256" (ValueBigInt 1).

Definition fieldAnonymous : ComponentValue unit :=
  elementary ElementaryTypeUint "" "uint256" (ValueBigInt 2).

(** The tuple [(uint256 a, uint256)] holding 1 and 2. *)
Definition examplePair : ComponentValue unit :=
  tupleOf "" "(uint256,uint256)" [fieldA; fieldAnonymous].

(** A child without descriptor, an unnamed field at index 1 and a field
    declared as [1]: the two names collide. *)
Definition exampleClash : ComponentValue unit :=
  tupleOf "" "(uint256,uint256)"
    [undescribed;
     elementary ElementaryTypeUint "" "uint256" (ValueBigInt 7);
     elementary ElementaryTypeUint "1" "uint256" (ValueBigInt 5)].

(** A good field, a field that fails, and a field that would panic. *)
Definition exampleFailingTuple : ComponentValue unit :=
  tupleOf "" "(uint256,odd,int256)" [fieldA; oddKind "bad"; mistypedInt].

Definition exampleFailingArray : ComponentValue unit :=
  arrayOf "" "odd[]" [fieldA; oddKind "bad"; mistypedInt].

(** An array of tuples whose element 0 has the failing field [f]. *)
Definition exampleArrayOfTuples : ComponentValue unit :=
  arrayOf "" "(uint256,odd)[]" [tupleOf "" "(uint256,odd)" [fieldA; oddKind "f"]].


Definition boolNode (i : Z) : ComponentValue unit :=
  elementary ElementaryTypeBool "ok" "bool" (ValueBigInt i).

(** A good field, a field that panics, and a field that would fail. *)
Definition examplePanickingTuple : ComponentValue unit :=
  tupleOf "" "(uint256,int256,odd)" [fieldA; mistypedInt; oddKind "bad"].

(** An array whose second element has no descriptor. *)
Definition exampleUndescribedArray : ComponentValue unit :=
  arrayOf "" "uint256[]" [fieldA; undescribed].

(** The array [uint256[]] holding 1 and 2. *)
Definition exampleArray : ComponentValue unit :=
  arrayOf "" "uint256[]" [fieldA; fieldAnonymous].

Definition exampleEmptyTuple : ComponentValue unit := tupleOf "" "()" [].

(** The tuple [(uint256, uint256)] holding 7 and 2, both fields unnamed. *)
Definition exampleUnnamedPair : ComponentValue unit :=
  tupleOf "" "(uint256,uint256)"
    [elementary ElementaryTypeUint "" "uint256" (ValueBigInt 7);
     fieldAnonymous].

(** A tuple whose second field has no descriptor. *)
Definition exampleUndescribedTuple : ComponentValue unit :=
  tupleOf "" "(uint256,uint256)" [fieldA; undescribed].

Definition flatSerializer : Serializer unit :=
  SetFormattingMode exampleSerializer FormatAsFlatArrays.

Definition selfDescribingSerializer : Serializer unit :=
  SetFormattingMode exampleSerializer FormatAsSelfDescribingArrays.

(** A marshaller for the examples: the outcome of a failed walk does not
    depend on it. *)
Definition exampleMarshal (v : GoAny) : option (list byte) * option (error unit) :=
  (Some [], None).

(** ** Properties *)

Section Properties.

Context {BigFloat : Type}.
Variable json_Marshal : GoAny -> option (list byte) * option (error BigFloat).
Variable json_MarshalIndent :
  GoAny -> option (list byte) * option (error BigFloat).

Implicit Types (s : Serializer BigFloat) (cv child : ComponentValue BigFloat).
Implicit Types (breadcrumbs : string) (e : error BigFloat).

(** *** The loop *)

Lemma forRange_app {St R} (body : nat -> ComponentValue BigFloat -> St -> LoopStep St R)
    l1 l2 i st :
  forRange body i (l1 ++ l2) st =
  match forRange body i l1 st with
  | Continue st' => forRange body (i + length l1)%nat l2 st'
  | Return r => Return r
  end.
Proof.
  revert i st. induction l1 as [|c l1 IH]; intros i st; simpl.
  - by rewrite Nat.add_0_r.
  - destruct (body i c st) as [st'|r]; [|done].
    rewrite IH. by replace (S i + length l1)%nat with (i + S (length l1))%nat by lia.
Qed.

(** C8: with a formatting mode that is none of the three known ones the
    tuple encoder returns the [UnknownTupleSerializer] error carrying the
    mode, nil as the value, and does not panic. *)
Theorem C8_unknown_formatting_mode s breadcrumbs cv :
  ts s <> FormatAsObjects ->
  ts s <> FormatAsFlatArrays ->
  ts s <> FormatAsSelfDescribingArrays ->
  serializeTuple s breadcrumbs cv =
  Returns AnyNil
    (Some (NewError MsgUnknownTupleSerializer [InsertFormattingMode (ts s)])).
Proof.
  intros H0 H1 H2. unfold serializeTuple, serializeTupleWith.
  destruct (Z.eqb_spec (ts s) FormatAsObjects); [done|].
  destruct (Z.eqb_spec (ts s) FormatAsFlatArrays); [done|].
  destruct (Z.eqb_spec (ts s) FormatAsSelfDescribingArrays); done.
Qed.

(** C10: in flat-arrays mode the tuple encoder and the array encoder give
    the same outcome on every node: same value, same error (breadcrumbs
    included), same panic. *)
Theorem C10_flat_tuple_is_array s breadcrumbs cv :
  ts s = FormatAsFlatArrays ->
  serializeTuple s breadcrumbs cv = serializeArray s breadcrumbs cv.
Proof.
  intros Hts. unfold serializeTuple, serializeTupleWith, serializeArray,
    serializeArrayWith.
  rewrite Hts. reflexivity.
Qed.

(** *** Integers: text, 64-bit truncation, conversion to binary64 *)

Lemma parse_base10_BigInt_String i : parse_base10 (BigInt_String i) = Some i.
Proof.
  unfold parse_base10, BigInt_String.
  rewrite NilZero.isi.
  - simpl. by rewrite DecimalZ.of_to.
  - destruct i as [|p|p]; simpl; try discriminate.
    intros [= H]. by apply (Unsigned.to_uint_nonnil p).
  - destruct i as [|p|p]; simpl; try discriminate.
    intros [= H]. by apply (Unsigned.to_uint_nonnil p).
Qed.

Lemma int64_wrap_small v : - 2 ^ 63 <= v < 2 ^ 63 -> int64_wrap v = v.
Proof. intros Hv. unfold int64_wrap. rewrite Z.mod_small; lia. Qed.

Lemma low64_small x : Z.abs x < 2 ^ 64 -> low64 x = Z.abs x.
Proof.
  intros Hx. unfold low64. rewrite Z.land_ones by lia.
  apply Z.mod_small. lia.
Qed.

(** Inside the [int64] range [Int64] is the identity. *)
Lemma BigInt_Int64_exact x : - 2 ^ 63 <= x < 2 ^ 63 -> BigInt_Int64 x = x.
Proof.
  intros Hx. destruct (Z.eq_dec x (- 2 ^ 63)) as [->|Hne]; [reflexivity|].
  unfold BigInt_Int64. rewrite low64_small by lia.
  rewrite (int64_wrap_small (Z.abs x)) by lia.
  destruct (Z.ltb_spec x 0); [rewrite int64_wrap_small|]; lia.
Qed.

Lemma digits2_pos_size m : digits2_pos m = Pos.size m.
Proof. induction m; simpl; congruence. Qed.

Lemma digits2_pos_bound m n :
  0 <= n -> Z.pos m < 2 ^ n -> Z.pos (digits2_pos m) <= n.
Proof.
  intros Hn Hm. rewrite digits2_pos_size.
  pose proof (Pos.size_le m) as Hle.
  apply Pos2Z.pos_le_pos in Hle. rewrite Pos2Z.inj_pow in Hle.
  change (Z.pos m~0) with (2 * Z.pos m) in Hle.
  destruct (Z.le_gt_cases (Z.pos (Pos.size m)) n) as [|Hgt]; [done|].
  assert (2 ^ (n + 1) <= 2 ^ Z.pos (Pos.size m)) as Hpow
    by (apply Z.pow_le_mono_r; lia).
  rewrite Z.pow_add_r in Hpow by lia. lia.
Qed.

Lemma digits2_pos_iter_xO m p :
  digits2_pos (Pos.iter xO m p) = (digits2_pos m + p)%positive.
Proof.
  induction p as [|p IH] using Pos.peano_ind.
  - simpl. lia.
  - rewrite Pos.iter_succ. simpl. rewrite IH. lia.
Qed.

Lemma Zpos_iter_xO m p : Z.pos (Pos.iter xO m p) = Z.pos m * 2 ^ Z.pos p.
Proof.
  induction p as [|p IH] using Pos.peano_ind.
  - simpl. lia.
  - rewrite Pos.iter_succ, Pos2Z.inj_succ, Z.pow_succ_r by lia.
    change (Z.pos (Pos.iter xO m p)~0) with (2 * Z.pos (Pos.iter xO m p)).
    rewrite IH. lia.
Qed.

(** A 53-bit mantissa with an exponent in range is left alone by rounding. *)
Lemma binary_round_aux_canonical sx mz ez :
  Z.pos (digits2_pos mz) = 53 -> -52 <= ez <= 0 ->
  binary_round_aux 53 1024 sx (Z.pos mz) ez loc_Exact = S754_finite sx mz ez.
Proof.
  intros Hd He. unfold binary_round_aux, shr_fexp, fexp, emin, Zdigits2.
  rewrite Hd.
  replace (Z.max (53 + ez - 53) (3 - 1024 - 53) - ez) with 0 by lia.
  simpl. rewrite Hd.
  replace (Z.max (53 + ez - 53) (3 - 1024 - 53) - ez) with 0 by lia.
  simpl. destruct (Z.leb_spec ez (1024 - 53)); [done|lia].
Qed.

Lemma binary_round_integer sx m :
  Z.pos m < 2 ^ 53 ->
  exists mz ez, binary_round 53 1024 sx m 0 = S754_finite sx mz ez
    /\ ez <= 0 /\ Z.pos mz = Z.pos m * 2 ^ (- ez).
Proof.
  intros Hm. pose proof (digits2_pos_bound m 53 ltac:(lia) Hm) as Hd.
  unfold binary_round, shl_align, fexp, emin.
  replace (Z.max (Z.pos (digits2_pos m) + 0 - 53) (3 - 1024 - 53) - 0)
    with (Z.pos (digits2_pos m) - 53) by lia.
  replace (Z.max (Z.pos (digits2_pos m) + 0 - 53) (3 - 1024 - 53))
    with (Z.pos (digits2_pos m) - 53) by lia.
  destruct (Z.pos (digits2_pos m) - 53) as [|p|p] eqn:Hk.
  - exists m, 0. rewrite binary_round_aux_canonical by lia.
    split; [done|]. split; [lia|]. simpl. lia.
  - lia.
  - exists (Pos.iter xO m p), (Z.neg p).
    rewrite binary_round_aux_canonical.
    + split; [done|]. split; [lia|]. by rewrite Zpos_iter_xO.
    + rewrite digits2_pos_iter_xO. lia.
    + lia.
Qed.

Lemma scaled_value (z k : Z) :
  0 <= k -> (inject_Z (z * 2 ^ k) * Qpower 2 (- k) == inject_Z z)%Q.
Proof.
  intros Hk. rewrite inject_Z_mult, Zpower_Qpower by done.
  rewrite Qpower_opp. change (inject_Z 2) with 2%Q.
  rewrite <- Qmult_assoc, Qmult_inv_r, Qmult_1_r; [done|].
  apply Qpower_not_0. discriminate.
Qed.

(** Below 2^53 in magnitude the conversion to binary64 loses nothing. *)
Lemma float64_of_int64_exact v :
  Z.abs v < 2 ^ 53 ->
  exists q, float64_value (float64_of_int64 v) = Some q /\ (q == inject_Z v)%Q.
Proof.
  intros Hv. unfold float64_of_int64, binary_normalize.
  destruct v as [|m|m].
  - exists 0%Q. done.
  - destruct (binary_round_integer false m) as (mz & ez & -> & He & Hmz); [lia|].
    eexists; split; [done|]. rewrite Hmz.
    replace ez with (- - ez) at 2 by lia. apply scaled_value. lia.
  - destruct (binary_round_integer true m) as (mz & ez & -> & He & Hmz); [lia|].
    eexists; split; [done|]. simpl.
    change (Z.neg mz) with (- Z.pos mz). rewrite Hmz.
    replace (- (Z.pos m * 2 ^ (- ez))) with (Z.neg m * 2 ^ (- ez)) by lia.
    replace ez with (- - ez) at 2 by lia. apply scaled_value. lia.
Qed.

(** C2: the safe-range integer strategy.  For [|i| <= 9007199254740991]
    the result is a native number (a binary64 value) that denotes exactly
    [i]; for [|i| > 9007199254740991] it is the base-10 text of [i], which
    reads back as [i]. *)
Theorem C2_number_if_fits_or_base10 (i : Z) :
  (Z.abs i <= 9007199254740991 ->
   exists f q,
     NumberIfFitsOrBase10StringIntSerializer i = AnyFloat64 f
     /\ float64_value f = Some q /\ (q == inject_Z i)%Q)
  /\
  (Z.abs i > 9007199254740991 ->
   NumberIfFitsOrBase10StringIntSerializer i = AnyString (BigInt_String i)
   /\ parse_base10 (BigInt_String i) = Some i).
Proof.
  unfold NumberIfFitsOrBase10StringIntSerializer, BigInt_Cmp,
    maxSafeJSONNumberInt, minSafeJSONNumberInt.
  split; intros Hi.
  - destruct (Z.compare_spec i 9007199254740991);
      destruct (Z.compare_spec i (-9007199254740991)); try lia; simpl;
      rewrite BigInt_Int64_exact by lia;
      (destruct (float64_of_int64_exact i) as (q & Hq & Heq); [lia|]);
      by exists (float64_of_int64 i), q.
  - split; [|apply parse_base10_BigInt_String].
    destruct (Z.compare_spec i 9007199254740991);
      destruct (Z.compare_spec i (-9007199254740991)); try lia; done.
Qed.

(** *** Big-endian bytes *)

Lemma Z_of_byte_of_Z z : Z_of_byte (byte_of_Z z) = z mod 256.
Proof.
  unfold Z_of_byte, byte_of_Z.
  pose proof (Z.mod_pos_bound z 256 ltac:(lia)) as Hz.
  destruct (Byte.of_N (Z.to_N (z mod 256))) as [b|] eqn:Hb.
  - apply Byte.to_of_N in Hb. simpl. rewrite Hb. lia.
  - apply Byte.of_N_None_iff in Hb. lia.
Qed.

Lemma big_endian_from acc l :
  foldl (fun acc b => acc * 256 + Z_of_byte b) acc l
  = acc * 256 ^ Z.of_nat (length l) + big_endian l.
Proof.
  unfold big_endian. revert acc. induction l as [|x l IH]; intros acc.
  - simpl. lia.
  - simpl foldl. rewrite IH, (IH (0 * 256 + Z_of_byte x)).
    simpl length. rewrite Nat2Z.inj_succ, Z.pow_succ_r by lia. lia.
Qed.

Lemma big_endian_cons b l :
  big_endian (b :: l) = Z_of_byte b * 256 ^ Z.of_nat (length l) + big_endian l.
Proof. unfold big_endian at 1. simpl. by rewrite big_endian_from. Qed.

Lemma big_endian_fun_to_vec (n : nat) (a : Z) (f : fin n -> byte) :
  (forall j : fin n, f j = byte_of_Z (a / 256 ^ Z.of_nat (n - 1 - fin_to_nat j))) ->
  big_endian (vec_to_list (fun_to_vec f)) = a mod 256 ^ Z.of_nat n.
Proof.
  revert f. induction n as [|n IH]; intros f Hf.
  - simpl. by rewrite Z.mod_1_r.
  - simpl fun_to_vec. rewrite vec_to_list_cons, big_endian_cons.
    rewrite length_vec_to_list, Hf, Z_of_byte_of_Z.
    rewrite (IH (f ∘ FS)).
    + simpl fin_to_nat. replace (S n - 1 - 0)%nat with n by lia.
      rewrite Nat2Z.inj_succ, Z.pow_succ_r by lia.
      rewrite (Z.mul_comm 256), Z.rem_mul_r by lia. lia.
    + intros j. simpl. rewrite Hf. simpl fin_to_nat.
      by replace (S n - 1 - S j)%nat with (n - 1 - j)%nat by lia.
Qed.

Lemma BigInt_FillBytes_fits (n : nat) (x : Z) (buf : vec byte n) :
  Z.abs x < 2 ^ (8 * Z.of_nat n) ->
  exists out, BigInt_FillBytes x buf = Some out
    /\ big_endian (vec_to_list out) = Z.abs x.
Proof.
  intros Hx. unfold BigInt_FillBytes.
  destruct (Z.ltb_spec (Z.abs x) (2 ^ (8 * Z.of_nat n))); [|lia].
  eexists; split; [done|].
  rewrite (big_endian_fun_to_vec n (Z.abs x)) by done.
  apply Z.mod_small. rewrite Z.pow_mul_r in Hx by lia. change (2 ^ 8) with 256 in Hx. lia.
Qed.

Lemma BigInt_FillBytes_overflow (n : nat) (x : Z) (buf : vec byte n) :
  2 ^ (8 * Z.of_nat n) <= Z.abs x -> BigInt_FillBytes x buf = None.
Proof.
  intros Hx. unfold BigInt_FillBytes.
  destruct (Z.ltb_spec (Z.abs x) (2 ^ (8 * Z.of_nat n))); [lia|done].
Qed.

(** *** Elementary nodes *)

(** Inside the [int64] range a Bool node is true exactly for 1. *)
Lemma Bool_in_int64_range s breadcrumbs cv c i :
  Component cv = Some c ->
  Component_ElementaryType c = ElementaryTypeBool ->
  Value cv = ValueBigInt i ->
  - 2 ^ 63 <= i < 2 ^ 63 ->
  serializeElementaryType s breadcrumbs cv = Returns (AnyBool (i =? 1)) None.
Proof.
  intros Hc Het Hv Hi. unfold serializeElementaryType.
  rewrite Hc, Het, Hv. simpl. by rewrite BigInt_Int64_exact.
Qed.

(** C4: a Bool node holding 2^64 + 1 = 18446744073709551617 encodes to
    [true]: [Int64] keeps the low 64 bits of the magnitude, which are 1. *)
Theorem C4_bool_true_beyond_64_bits s breadcrumbs ct name signature children :
  serializeElementaryType s breadcrumbs
    (mkComponentValue
       (Some (mkTypeComponent ct ElementaryTypeBool name signature))
       children (ValueBigInt 18446744073709551617))
  = Returns (AnyBool true) None.
Proof. reflexivity. Qed.

(** C1: an elementary node of a recognized kind whose decoded value does
    not have the shape the kind requires makes the encoder panic, with the
    runtime's failed interface conversion naming the actual and the
    required type; no error is returned.  The same holds for the whole
    walk of such a node.  The elementary encoder returns an error exactly
    for a node of unrecognized kind: [UnknownElementaryType] carrying the
    kind and the breadcrumbs, with a nil value. *)
Theorem C1_shape_mismatch_panics s breadcrumbs cv c :
  Component cv = Some c ->
  (forall sh,
     requiredShape (Component_ElementaryType c) = Some sh ->
     shapeOf (Value cv) <> Some sh ->
     serializeElementaryType s breadcrumbs cv
     = Panics (PanicInterfaceConversion (dynamicTypeName (Value cv))
                 (shapeTypeName sh))
     /\ (Component_ComponentType c = ElementaryComponent ->
         walkOutput s breadcrumbs cv
         = Panics (PanicInterfaceConversion (dynamicTypeName (Value cv))
                     (shapeTypeName sh))))
  /\ (forall out e,
        serializeElementaryType s breadcrumbs cv = Returns out (Some e)
        <->
        exists name,
          Component_ElementaryType c = ElementaryTypeOther name
          /\ out = AnyNil
          /\ e = NewError MsgUnknownABIElementaryType
                   [InsertElementaryType (ElementaryTypeOther name);
                    InsertBreadcrumbs breadcrumbs]).
Proof.
  intros Hc. split.
  - intros sh Hreq Hshape.
    assert (serializeElementaryType s breadcrumbs cv
            = Panics (PanicInterfaceConversion (dynamicTypeName (Value cv))
                        (shapeTypeName sh))) as Hpanic.
    { unfold serializeElementaryType. rewrite Hc.
      destruct (Component_ElementaryType c); simplify_eq/=;
        destruct (Value cv); simpl in *; congruence. }
    split; [done|]. intros Hct.
    destruct cv as [c' ch v]. simpl in *. subst c'. by rewrite Hct.
  - intros out e. unfold serializeElementaryType. rewrite Hc. split.
    + destruct (Component_ElementaryType c) as [| | | | | | | | |name];
        [destruct (Value cv);
         cbn [assertBigInt assertBigFloat assertBytes assertString];
         try (destruct (BigInt_FillBytes _ _) as [addr|]);
         try (destruct (ad s) as [adf|]);
         intros Heq; discriminate Heq..|].
      intros [= <- <-]. by exists name.
    + intros (name & Het & -> & ->). by rewrite Het.
Qed.

(** C5: an Address node whose integer is below 2^160 in magnitude.  The
    20-byte array is the magnitude in big-endian order, zero-extended on
    the left; without an address strategy the result is the byte strategy
    applied to those 20 bytes, with one it is the address strategy applied
    to the array. *)
Theorem C5_address_within_160_bits s breadcrumbs cv c i :
  Component cv = Some c ->
  Component_ElementaryType c = ElementaryTypeAddress ->
  Value cv = ValueBigInt i ->
  Z.abs i < 2 ^ 160 ->
  exists addr : vec byte 20,
    big_endian (vec_to_list addr) = Z.abs i
    /\ length (vec_to_list addr) = 20%nat
    /\ serializeElementaryType s breadcrumbs cv
       = Returns (match ad s with
                  | None => bs s (vec_to_list addr)
                  | Some adf => adf addr
                  end) None.
Proof.
  intros Hc Het Hv Hi.
  destruct (BigInt_FillBytes_fits 20 i (vreplicate 20 "000"%byte))
    as (addr & Hfill & Hbe); [exact Hi|].
  exists addr. split; [exact Hbe|]. split; [apply length_vec_to_list|].
  unfold serializeElementaryType. rewrite Hc, Het, Hv. simpl assertBigInt.
  cbv iota. rewrite Hfill. by destruct (ad s).
Qed.

(** An Address node whose integer does not fit 20 bytes panics. *)
Lemma address_beyond_160_bits_panics s breadcrumbs cv c i :
  Component cv = Some c ->
  Component_ElementaryType c = ElementaryTypeAddress ->
  Value cv = ValueBigInt i ->
  2 ^ 160 <= Z.abs i ->
  serializeElementaryType s breadcrumbs cv = Panics PanicBufferTooSmall.
Proof.
  intros Hc Het Hv Hi. unfold serializeElementaryType.
  rewrite Hc, Het, Hv. simpl assertBigInt. cbv iota.
  by rewrite BigInt_FillBytes_overflow.
Qed.


(** *** Loops that fill a slice slot by slot *)

Lemma forRange_passes {St R}
    (body : nat -> ComponentValue BigFloat -> St -> LoopStep St R) l i st :
  (forall j c st0, l !! j = Some c ->
     exists st1, body (i + j)%nat c st0 = Continue st1) ->
  exists st', forRange body i l st = Continue st'.
Proof.
  revert i st. induction l as [|c l IH]; intros i st Hl; simpl.
  - by eexists.
  - destruct (Hl 0%nat c st eq_refl) as [st1 Hst1].
    rewrite Nat.add_0_r in Hst1. rewrite Hst1.
    apply IH. intros j c' st0 Hj.
    replace (S i + j)%nat with (i + S j)%nat by lia. by apply Hl.
Qed.

Lemma forRange_stops {St R}
    (body : nat -> ComponentValue BigFloat -> St -> LoopStep St R)
    pre c post i st r :
  (forall j c' st0, pre !! j = Some c' ->
     exists st1, body (i + j)%nat c' st0 = Continue st1) ->
  (forall st0, body (i + length pre)%nat c st0 = Return r) ->
  forRange body i (pre ++ c :: post) st = Return r.
Proof.
  intros Hpre Hc. rewrite forRange_app.
  destruct (forRange_passes body pre i st Hpre) as [st' ->].
  simpl. by rewrite Hc.
Qed.

Lemma forRange_Return {St R}
    (body : nat -> ComponentValue BigFloat -> St -> LoopStep St R)
    (P : R -> Prop) l i st r :
  (forall j c st0 r0, body j c st0 = Return r0 -> P r0) ->
  forRange body i l st = Return r -> P r.
Proof.
  intros Hbody. revert i st. induction l as [|c l IH]; intros i st; simpl.
  - done.
  - destruct (body i c st) as [st'|r0] eqn:Hb.
    + apply IH.
    + intros [= <-]. eauto.
Qed.

(** What the loops hand back on an early return: the child's error with a
    nil value, or the child's panic. *)
Lemma walkChild_Return {St} (o : Outcome BigFloat GoAny) (k : GoAny -> St) r :
  walkChild o k = Return r ->
  (exists v e, o = Returns v (Some e) /\ r = Returns AnyNil (Some e))
  \/ (exists p, o = Panics p /\ r = Panics p).
Proof.
  unfold walkChild. destruct o as [v [e|]|p]; intros [=]; subst; eauto.
Qed.

Lemma walkChild_abrupt {St} (o : Outcome BigFloat GoAny) (k : GoAny -> St) r :
  walkChild o k = Return r ->
  (exists e, r = Returns AnyNil (Some e)) \/ (exists p, r = Panics p).
Proof.
  intros Hr. apply walkChild_Return in Hr.
  destruct Hr as [(v & e & _ & ->)|(p & _ & ->)]; eauto.
Qed.

(** A loop whose body only returns early through [walkChild] hands back an
    error with a nil value, or a panic. *)
Lemma forRange_abrupt {St}
    (body : nat -> ComponentValue BigFloat -> St
            -> LoopStep St (Outcome BigFloat GoAny)) l i st r :
  (forall j c st0 r0, body j c st0 = Return r0 ->
     (exists e, r0 = Returns AnyNil (Some e)) \/ (exists p, r0 = Panics p)) ->
  forRange body i l st = Return r ->
  (exists e, r = Returns AnyNil (Some e)) \/ (exists p, r = Panics p).
Proof.
  intros Hbody.
  apply (forRange_Return body
           (fun r0 => (exists e, r0 = Returns AnyNil (Some e))
                      \/ (exists p, r0 = Panics p))).
  exact Hbody.
Qed.

Section Slots.

Variable o : nat -> ComponentValue BigFloat -> Outcome BigFloat GoAny.
Variable f : nat -> ComponentValue BigFloat -> GoAny -> GoAny.

Local Abbreviation slotBody :=
  (fun (i : nat) (child : ComponentValue BigFloat) (out : list GoAny) =>
     walkChild (o i child) (fun v => <[i := f i child v]> out)).

Lemma slots_filled l : forall i done out',
  length done = i ->
  forRange slotBody i l (done ++ replicate (length l) AnyNil) = Continue out' ->
  exists filled,
    out' = done ++ filled /\ length filled = length l
    /\ forall j child, l !! j = Some child ->
         exists v, o (i + j)%nat child = Returns v None
                   /\ filled !! j = Some (f (i + j)%nat child v).
Proof.
  induction l as [|c l IH]; intros i done out' Hlen Hrun; simpl in Hrun.
  - exists []. simplify_eq. split; [done|]. split; [done|]. intros j child [=].
  - unfold walkChild at 1 in Hrun.
    destruct (o i c) as [v [e|]|p] eqn:Ho; try done.
    rewrite insert_app_r_alt in Hrun by lia.
    replace (i - length done)%nat with 0%nat in Hrun by lia. simpl in Hrun.
    rewrite cons_middle, app_assoc in Hrun.
    apply IH in Hrun as (filled & -> & Hfl & Hall);
      [|rewrite length_app; simpl; lia].
    exists (f i c v :: filled). split; [by rewrite <- app_assoc|].
    split; [simpl; lia|]. intros [|j] child Hj; simpl in Hj.
    + simplify_eq. rewrite Nat.add_0_r. eauto.
    + destruct (Hall j child Hj) as (w & Hw & Hf).
      replace (S i + j)%nat with (i + S j)%nat in * by lia. eauto.
Qed.

Lemma slots_progress l i out :
  (forall j child, l !! j = Some child ->
     exists v, o (i + j)%nat child = Returns v None) ->
  exists out', forRange slotBody i l out = Continue out'.
Proof.
  intros Hall. apply forRange_passes. intros j c st0 Hj.
  destruct (Hall j c Hj) as [v Hv]. unfold walkChild.
  rewrite Hv. by eexists.
Qed.

(** The loop ends normally exactly when every child encodes; slot [j] then
    holds what child [j] was turned into. *)
Lemma slots_loop l entries :
  finish (forRange slotBody 0 l (replicate (length l) AnyNil)) AnySlice
  = Returns (AnySlice entries) None
  <->
  length entries = length l
  /\ forall j child, l !! j = Some child ->
       exists v, o j child = Returns v None
                 /\ entries !! j = Some (f j child v).
Proof.
  split.
  - destruct (forRange _ _ _ _) as [out'|r] eqn:Hrun; simpl.
    + intros [= ->].
      apply (slots_filled l 0%nat [] entries eq_refl) in Hrun
        as (filled & -> & Hfl & Hall).
      done.
    + intros ->.
      apply forRange_abrupt in Hrun as [[e [=]]|[p [=]]].
      intros j c st0 r0. apply walkChild_abrupt.
  - intros [Hlen Hall].
    destruct (slots_progress l 0%nat (replicate (length l) AnyNil))
      as [out' Hrun].
    { intros j child Hj. destruct (Hall j child Hj) as (v & Hv & _). eauto. }
    rewrite Hrun. simpl. do 2 f_equal.
    apply (slots_filled l 0%nat [] out' eq_refl) in Hrun
      as (filled & -> & Hfl & Hfilled).
    simpl. apply list_eq. intros j.
    destruct (l !! j) as [child|] eqn:Hj.
    + destruct (Hall j child Hj) as (v & Hv & ->).
      destruct (Hfilled j child Hj) as (w & Hw & ->). simpl in Hw |- *.
      congruence.
    + apply lookup_ge_None in Hj.
      rewrite !(proj2 (lookup_ge_None _ _)); [done|lia..].
Qed.

End Slots.

(** *** The loop that builds an object *)

Lemma walks_deterministic {A}
    (walk : A -> Outcome BigFloat GoAny) (fields : list A) vs vs' :
  Forall2 (fun field v => walk field = Returns v None) fields vs ->
  Forall2 (fun field v => walk field = Returns v None) fields vs' ->
  vs = vs'.
Proof.
  intros Hvs. revert vs'.
  induction Hvs as [|field v fields vs Hv _ IH]; intros vs' Hvs';
    inversion Hvs' as [|? w ? ws Hw Hws]; subst; [done|].
  f_equal; [congruence|by apply IH].
Qed.

Section Objects.

Variable s : Serializer BigFloat.
Variable walk : string -> ComponentValue BigFloat -> Outcome BigFloat GoAny.
Variable breadcrumbs : string.

Local Abbreviation objectBody :=
  (fun (i : nat) (child : ComponentValue BigFloat) (out : gmap string GoAny) =>
     match Component child with
     | Some c =>
         let name := Component_KeyName c in
         let name := if String.eqb name "" then dn s (Z.of_nat i) else name in
         walkChild (walk (Sprintf_s_s breadcrumbs name) child)
           (fun v => <[name := v]> out)
     | None => Continue out
     end).

Lemma objectBody_described i child out c :
  Component child = Some c ->
  objectBody i child out
  = walkChild (walk (Sprintf_s_s breadcrumbs (resolvedName s i child)) child)
      (fun v => <[resolvedName s i child := v]> out).
Proof. intros Hc. unfold resolvedName. by rewrite Hc. Qed.

Lemma objects_run l : forall i m0 m',
  forRange objectBody i l m0 = Continue m'
  <->
  exists vs,
    Forall2 (fun field v =>
               walk (Sprintf_s_s breadcrumbs field.1) field.2 = Returns v None)
      (namedChildrenFrom s i l) vs
    /\ m' = foldl (fun m kv => <[kv.1 := kv.2]> m) m0
              (zip (namedChildrenFrom s i l).*1 vs).
Proof.
  induction l as [|child l IH]; intros i m0 m'.
  - simpl. split.
    + intros [= ->]. exists []. by split; [constructor|].
    + intros (vs & Hvs & ->). by inversion Hvs.
  - simpl forRange. simpl namedChildrenFrom.
    destruct (Component child) as [c|] eqn:Hc; [|apply IH].
    assert (resolvedName s i child
            = if String.eqb (Component_KeyName c) "" then dn s (Z.of_nat i)
              else Component_KeyName c) as <-
      by (unfold resolvedName; by rewrite Hc).
    unfold walkChild at 1.
    destruct (walk (Sprintf_s_s breadcrumbs (resolvedName s i child)) child)
      as [v [e|]|p] eqn:Hw.
    + split; [done|]. intros (vs & Hvs & _).
      inversion Hvs as [|? w ? vs' Hw' Hvs']; simpl in Hw'. congruence.
    + rewrite IH. split.
      * intros (vs & Hvs & ->). exists (v :: vs). split; [by constructor|done].
      * intros (vs & Hvs & ->).
        inversion Hvs as [|? w ? vs' Hw' Hvs']; subst; simpl in Hw'.
        assert (w = v) as -> by congruence. by exists vs'.
    + split; [done|]. intros (vs & Hvs & _).
      inversion Hvs as [|? w ? vs' Hw' Hvs']; simpl in Hw'. congruence.
Qed.

End Objects.

Lemma objectOf_snoc bindings name v :
  objectOf (bindings ++ [(name, v)]) = <[name := v]> (objectOf bindings).
Proof. unfold objectOf. by rewrite foldl_app. Qed.

(** Inserting in order is last-write-wins: of several bindings of a name
    the last one is kept. *)
Lemma objectOf_reverse bindings :
  objectOf bindings = list_to_map (reverse bindings).
Proof.
  induction bindings as [|[name v] bindings IH] using rev_ind; [done|].
  by rewrite objectOf_snoc, reverse_snoc, IH.
Qed.

Lemma objectOf_last_wins pre name v post :
  name ∉ post.*1 ->
  objectOf (pre ++ (name, v) :: post) !! name = Some v.
Proof.
  intros Hpost. rewrite objectOf_reverse, reverse_app, reverse_cons.
  rewrite <- app_assoc. simpl. rewrite list_to_map_app.
  rewrite lookup_union_r.
  - simpl. apply lookup_insert_eq.
  - apply not_elem_of_list_to_map_1. by rewrite fmap_reverse, elem_of_reverse.
Qed.

Lemma objectOf_absent bindings name :
  name ∉ bindings.*1 -> objectOf bindings !! name = None.
Proof.
  intros Hn. rewrite objectOf_reverse.
  apply not_elem_of_list_to_map_1. by rewrite fmap_reverse, elem_of_reverse.
Qed.

(** *** Self-describing entries *)

Lemma walkOutput_nil_descriptor s breadcrumbs cv :
  Component cv = None ->
  walkOutput s breadcrumbs cv
  = Returns AnyNil
      (Some (NewError MsgBadABITypeComponent [InsertComponentValue cv])).
Proof. destruct cv as [c ch v]. simpl. by intros ->. Qed.

Lemma describeChild_name s i child c :
  Component child = Some c ->
  describeChild s i child !! "name"%string
  = Some (AnyString (resolvedName s i child)).
Proof.
  intros Hc. unfold describeChild, resolvedName. rewrite Hc.
  rewrite lookup_insert_ne, lookup_insert_eq by done.
  destruct (Component_KeyName c) as [|a k]; simpl.
  - by rewrite lookup_insert_eq.
  - by rewrite lookup_insert_ne, lookup_insert_eq.
Qed.

Lemma describeChild_entry s i child c v :
  Component child = Some c ->
  AnyMap (<["value"%string := v]> (describeChild s i child))
  = describedEntry s i c v.
Proof.
  intros Hc. unfold describedEntry, describeChild, fieldName. rewrite Hc.
  rewrite lookup_insert_ne, lookup_insert_eq by done.
  do 2 f_equal.
  destruct (Component_KeyName c) as [|a k]; simpl.
  - rewrite (insert_insert_ne _ "name"%string "type"%string) by done.
    by rewrite insert_insert_eq.
  - by rewrite (insert_insert_ne _ "type"%string "name"%string).
Qed.

Lemma resolvedName_described s i child c :
  Component child = Some c -> resolvedName s i child = fieldName s i c.
Proof. intros Hc. unfold resolvedName, fieldName. by rewrite Hc. Qed.

(** A child without descriptor is walked under a different breadcrumb than
    its resolved name suggests, but the walk does not look at it. *)
Lemma describeChild_walk s breadcrumbs i child :
  walkOutput s
    (Sprintf_s_s breadcrumbs (fmt_s (describeChild s i child !! "name"%string)))
    child
  = walkOutput s (Sprintf_s_s breadcrumbs (resolvedName s i child)) child.
Proof.
  destruct (Component child) as [c|] eqn:Hc.
  - by rewrite (describeChild_name s i child c Hc).
  - by rewrite !walkOutput_nil_descriptor.
Qed.

(** *** Arrays *)

(** The array encoder gives an array exactly when every child encodes
    (walked under the breadcrumbs extended by its index): one element per
    child, in child order. *)
Lemma serializeArray_entries s breadcrumbs cv entries :
  serializeArray s breadcrumbs cv = Returns (AnySlice entries) None
  <->
  length entries = length (Children cv)
  /\ forall j child, Children cv !! j = Some child ->
       exists v,
         walkOutput s (Sprintf_s_d breadcrumbs (Z.of_nat j)) child
         = Returns v None
         /\ entries !! j = Some v.
Proof.
  unfold serializeArray, serializeArrayWith.
  apply (slots_loop
           (fun j child =>
              walkOutput s (Sprintf_s_d breadcrumbs (Z.of_nat j)) child)
           (fun _ _ v => v)).
Qed.

(** *** Tuples *)

(** A child without descriptor stops the self-describing walk of a tuple:
    no entry is ever built for it. *)
Lemma self_describing_nil_descriptor s breadcrumbs cv pre child post :
  ts s = FormatAsSelfDescribingArrays ->
  Children cv = pre ++ child :: post ->
  Component child = None ->
  (forall j c, pre !! j = Some c -> fieldPasses s breadcrumbs j c) ->
  serializeTuple s breadcrumbs cv
  = Returns AnyNil
      (Some (NewError MsgBadABITypeComponent [InsertComponentValue child])).
Proof.
  intros Hts Hch Hc Hpre. unfold serializeTuple, serializeTupleWith.
  rewrite Hts, Hch. simpl Z.eqb. cbv iota.
  rewrite (forRange_stops _ pre child post 0
             _ (Returns AnyNil
                  (Some (NewError MsgBadABITypeComponent
                           [InsertComponentValue child])))); [done| |].
  - intros j c st0 Hj. simpl. rewrite describeChild_walk.
    destruct (Hpre j c Hj) as [[Hobj _]|[v Hv]].
    + rewrite Hobj in Hts. discriminate.
    + rewrite Hv. by eexists.
  - intros st0. simpl. by rewrite walkOutput_nil_descriptor.
Qed.

(** C3: in self-describing mode a tuple encodes exactly when every child
    has a descriptor and encodes (walked under the breadcrumbs extended by
    its name), and then to the array that holds, at the position of each
    child, the object with the three keys [name] (the declared field name,
    or [DefaultName(index)] if that is empty), [type] (the canonical
    signature) and [value] (the encoded child).  For a child without
    descriptor the element map gets neither [name] nor [type], and no
    entry ever comes out: the tuple does not encode, and when the children
    before it encode the walk returns [BadComponent] carrying that child. *)
Theorem C3_self_describing_tuple s breadcrumbs cv :
  ts s = FormatAsSelfDescribingArrays ->
  (forall out, serializeTuple s breadcrumbs cv = Returns out None ->
     exists entries, out = AnySlice entries)
  /\ (forall entries,
        serializeTuple s breadcrumbs cv = Returns (AnySlice entries) None
        <->
        length entries = length (Children cv)
        /\ forall i child, Children cv !! i = Some child ->
             exists c v,
               Component child = Some c
               /\ walkOutput s (Sprintf_s_s breadcrumbs (fieldName s i c))
                    child = Returns v None
               /\ entries !! i = Some (describedEntry s i c v))
  /\ (forall pre child post,
        Children cv = pre ++ child :: post ->
        Component child = None ->
        (forall i, describeChild s i child = ∅)
        /\ (forall out, serializeTuple s breadcrumbs cv <> Returns out None)
        /\ ((forall j f, pre !! j = Some f ->
               exists v,
                 walkOutput s (Sprintf_s_s breadcrumbs (resolvedName s j f)) f
                 = Returns v None) ->
            serializeTuple s breadcrumbs cv
            = Returns AnyNil
                (Some (NewError MsgBadABITypeComponent
                         [InsertComponentValue child])))).
Proof.
  intros Hts.
  assert (serializeTuple s breadcrumbs cv
          = finish
              (forRange
                 (fun i child out =>
                    walkChild
                      (walkOutput s
                         (Sprintf_s_s breadcrumbs
                            (fmt_s (describeChild s i child !! "name"%string)))
                         child)
                      (fun v =>
                         <[i := AnyMap (<["value"%string := v]>
                                          (describeChild s i child))]> out))
                 0%nat (Children cv)
                 (replicate (length (Children cv)) AnyNil))
              AnySlice) as Hrun.
  { unfold serializeTuple, serializeTupleWith. by rewrite Hts. }
  assert (forall out, serializeTuple s breadcrumbs cv = Returns out None ->
            exists entries, out = AnySlice entries) as Hslice.
  { intros out. rewrite Hrun.
    destruct (forRange _ _ _ _) as [out'|r] eqn:Hloop; simpl.
    - intros [= <-]. by eexists.
    - intros ->.
      apply forRange_abrupt in Hloop as [[e [=]]|[p [=]]].
      intros j c st0 r0. apply walkChild_abrupt. }
  assert (forall entries,
            serializeTuple s breadcrumbs cv = Returns (AnySlice entries) None
            <->
            length entries = length (Children cv)
            /\ forall i child, Children cv !! i = Some child ->
                 exists c v,
                   Component child = Some c
                   /\ walkOutput s (Sprintf_s_s breadcrumbs (fieldName s i c))
                        child = Returns v None
                   /\ entries !! i = Some (describedEntry s i c v))
    as Hentries.
  { intros entries. rewrite Hrun.
    rewrite (slots_loop
               (fun i child =>
                  walkOutput s
                    (Sprintf_s_s breadcrumbs
                       (fmt_s (describeChild s i child !! "name"%string)))
                    child)
               (fun i child v =>
                  AnyMap (<["value"%string := v]> (describeChild s i child)))).
    split; intros [Hlen Hall]; (split; [exact Hlen|]); intros i child Hi.
    - destruct (Hall i child Hi) as (v & Hv & He).
      rewrite describeChild_walk in Hv.
      destruct (Component child) as [c|] eqn:Hc.
      + exists c, v. split; [done|].
        rewrite <- (resolvedName_described s i child c Hc).
        split; [exact Hv|].
        by rewrite <- (describeChild_entry s i child c v Hc).
      + by rewrite walkOutput_nil_descriptor in Hv.
    - destruct (Hall i child Hi) as (c & v & Hc & Hv & He).
      exists v. rewrite describeChild_walk.
      rewrite (resolvedName_described s i child c Hc).
      split; [exact Hv|].
      by rewrite (describeChild_entry s i child c v Hc). }
  split; [exact Hslice|]. split; [exact Hentries|].
  intros pre child post Hch Hnil. split; [|split].
  - intros i. unfold describeChild. by rewrite Hnil.
  - intros out Hout. destruct (Hslice out Hout) as [entries ->].
    apply Hentries in Hout as [_ Hall].
    destruct (Hall (length pre) child) as (c & _ & Hc & _).
    + rewrite Hch. by rewrite list_lookup_middle.
    + congruence.
  - intros Hpre.
    apply (self_describing_nil_descriptor s breadcrumbs cv pre child post
             Hts Hch Hnil).
    intros j f Hj. right. by apply Hpre.
Qed.

(** C6: in objects mode a tuple encodes exactly when every child with a
    descriptor encodes (walked under the breadcrumbs extended by its
    resolved name), and then to the mapping obtained by inserting, in child
    order, each such child's value under its declared name, or under
    [DefaultName(index)] if that is empty.  Children without descriptor
    take no part.  Where names collide the later value is the one kept,
    and a name no child resolves to is absent. *)
Theorem C6_objects_tuple s breadcrumbs cv :
  ts s = FormatAsObjects ->
  (forall out,
     serializeTuple s breadcrumbs cv = Returns out None
     <->
     exists vs,
       Forall2 (fun field v =>
                  walkOutput s (Sprintf_s_s breadcrumbs field.1) field.2
                  = Returns v None)
         (namedChildren s (Children cv)) vs
       /\ out = AnyMap (objectOf (zip (namedChildren s (Children cv)).*1 vs)))
  /\ (forall pre name v post,
        name ∉ post.*1 ->
        objectOf (pre ++ (name, v) :: post) !! name = Some v)
  /\ (forall bindings name,
        name ∉ bindings.*1 -> objectOf bindings !! name = None).
Proof.
  intros Hts. split; [|split].
  - intros out. unfold serializeTuple, serializeTupleWith. rewrite Hts.
    simpl Z.eqb. cbv iota.
    destruct (forRange _ _ _ _) as [m'|r] eqn:Hloop.
    + apply objects_run in Hloop as (vs & Hvs & ->). simpl. split.
      * intros [= <-]. by exists vs.
      * intros (vs' & Hvs' & ->).
        by rewrite (walks_deterministic _ _ _ _ Hvs' Hvs).
    + simpl. split.
      * intros ->.
        apply forRange_abrupt in Hloop as [[e [=]]|[p [=]]].
        intros j c st0 r0. destruct (Component c); [|done].
        apply walkChild_abrupt.
      * intros (vs & Hvs & ->).
        pose proof (proj2 (objects_run s (walkOutput s) breadcrumbs
                             (Children cv) 0%nat ∅ _)
                      (ex_intro _ vs (conj Hvs eq_refl))) as Hgo.
        discriminate (eq_trans (eq_sym Hgo) Hloop).
  - intros pre name v post. apply objectOf_last_wins.
  - apply objectOf_absent.
Qed.

(** *** Failing children *)

Lemma finish_error_nil {St} (r : LoopStep St (Outcome BigFloat GoAny)) k out e :
  (forall r0, r = Return r0 ->
     (exists e0, r0 = Returns AnyNil (Some e0)) \/ (exists p, r0 = Panics p)) ->
  finish r k = Returns out (Some e) -> out = AnyNil.
Proof.
  intros Hr. destruct r as [st|r0]; simpl; [done|].
  destruct (Hr r0 eq_refl) as [[e0 ->]|[p ->]]; by intros [=].
Qed.

Lemma serializeElementaryType_error_nil s breadcrumbs cv out e :
  serializeElementaryType s breadcrumbs cv = Returns out (Some e) ->
  out = AnyNil.
Proof.
  unfold serializeElementaryType.
  destruct (Component cv) as [c|]; [|done].
  destruct (Component_ElementaryType c);
    repeat match goal with
      | |- context [match ?x with _ => _ end] => destruct x
      end; by intros [=].
Qed.

Lemma serializeArray_error_nil s breadcrumbs cv out e :
  serializeArray s breadcrumbs cv = Returns out (Some e) -> out = AnyNil.
Proof.
  unfold serializeArray, serializeArrayWith. apply finish_error_nil.
  intros r0 Hr0. apply forRange_abrupt in Hr0; [done|].
  intros j c st0 r1. apply walkChild_abrupt.
Qed.

Lemma serializeTuple_error_nil s breadcrumbs cv out e :
  serializeTuple s breadcrumbs cv = Returns out (Some e) -> out = AnyNil.
Proof.
  unfold serializeTuple, serializeTupleWith.
  repeat case_match; try by intros [=].
  all: apply finish_error_nil; intros r0 Hr0;
    apply forRange_abrupt in Hr0; [done|]; intros j c st0 r1.
  - destruct (Component c); [apply walkChild_abrupt|done].
  - apply walkChild_abrupt.
  - apply walkChild_abrupt.
Qed.

Lemma walkOutput_error_nil s breadcrumbs cv out e :
  walkOutput s breadcrumbs cv = Returns out (Some e) -> out = AnyNil.
Proof.
  destruct cv as [[c|] ch v]; simpl; [|by intros [=]].
  destruct (Component_ComponentType c).
  - apply serializeElementaryType_error_nil.
  - apply serializeArray_error_nil.
  - apply serializeArray_error_nil.
  - apply serializeTuple_error_nil.
  - by intros [=].
Qed.

(** The walk of a described node is the encoder its variant selects. *)
Lemma walkOutput_dispatch s breadcrumbs cv c :
  Component cv = Some c ->
  walkOutput s breadcrumbs cv
  = match Component_ComponentType c with
    | ElementaryComponent => serializeElementaryType s breadcrumbs cv
    | FixedArrayComponent | DynamicArrayComponent =>
        serializeArray s breadcrumbs cv
    | TupleComponent => serializeTuple s breadcrumbs cv
    | OtherComponent _ =>
        Returns AnyNil
          (Some (NewError MsgBadABITypeComponent [InsertComponent c]))
    end.
Proof. destruct cv as [c' ch v]. simpl. by intros ->. Qed.

Lemma serializeArray_first_error s breadcrumbs cv pre child post out e :
  Children cv = pre ++ child :: post ->
  (forall j c, pre !! j = Some c ->
     exists w, walkOutput s (Sprintf_s_d breadcrumbs (Z.of_nat j)) c
               = Returns w None) ->
  walkOutput s (Sprintf_s_d breadcrumbs (Z.of_nat (length pre))) child
  = Returns out (Some e) ->
  serializeArray s breadcrumbs cv = Returns AnyNil (Some e).
Proof.
  intros Hch Hpre Hchild. unfold serializeArray, serializeArrayWith.
  rewrite Hch.
  rewrite (forRange_stops _ pre child post 0 _ (Returns AnyNil (Some e)));
    [done| |].
  - intros j c st0 Hj. simpl. destruct (Hpre j c Hj) as [w ->]. by eexists.
  - intros st0. simpl. by rewrite Hchild.
Qed.

Lemma serializeTuple_first_error s breadcrumbs cv pre child post out e :
  Children cv = pre ++ child :: post ->
  ts s = FormatAsObjects \/ ts s = FormatAsSelfDescribingArrays ->
  (forall j c, pre !! j = Some c -> fieldPasses s breadcrumbs j c) ->
  (ts s = FormatAsObjects -> Component child <> None) ->
  walkOutput s (Sprintf_s_s breadcrumbs (resolvedName s (length pre) child))
    child = Returns out (Some e) ->
  serializeTuple s breadcrumbs cv = Returns AnyNil (Some e).
Proof.
  intros Hch Hmode Hpre Hdesc Hchild. unfold serializeTuple, serializeTupleWith.
  rewrite Hch. destruct Hmode as [Hts|Hts]; rewrite Hts; simpl Z.eqb; cbv iota.
  - rewrite (forRange_stops _ pre child post 0 _ (Returns AnyNil (Some e)));
      [done| |].
    + intros j c st0 Hj. simpl.
      destruct (Component c) as [tc|] eqn:Hc; [|by eexists].
      destruct (Hpre j c Hj) as [[_ Hnil]|[w Hw]]; [congruence|].
      unfold resolvedName in Hw. rewrite Hc in Hw. rewrite Hw. by eexists.
    + intros st0. simpl.
      destruct (Component child) as [tc|] eqn:Hc; [|by destruct (Hdesc Hts)].
      unfold resolvedName in Hchild. rewrite Hc in Hchild. by rewrite Hchild.
  - rewrite (forRange_stops _ pre child post 0 _ (Returns AnyNil (Some e)));
      [done| |].
    + intros j c st0 Hj. simpl. rewrite describeChild_walk.
      destruct (Hpre j c Hj) as [[Hobj _]|[w Hw]].
      * rewrite Hobj in Hts. discriminate.
      * rewrite Hw. by eexists.
    + intros st0. simpl. by rewrite describeChild_walk, Hchild.
Qed.

(** C7: the first child error ends the walk of the node and is what the
    node returns, with a nil value: for the array encoder and for the
    tuple encoder in each of its modes, whatever the later children would
    do; the walk of a node is the encoder of its variant, so the error
    travels unchanged to the entry points, and [SerializeJSONCtx] returns
    nil bytes with it.  No outcome pairs an error with a value other than
    nil. *)
Theorem C7_first_child_error_aborts s breadcrumbs cv :
  (forall out e,
     (walkOutput s breadcrumbs cv = Returns out (Some e) -> out = AnyNil)
     /\ (serializeArray s breadcrumbs cv = Returns out (Some e) -> out = AnyNil)
     /\ (serializeTuple s breadcrumbs cv = Returns out (Some e) -> out = AnyNil))
  /\ (forall pre child post out e,
        Children cv = pre ++ child :: post ->
        (forall j c, pre !! j = Some c ->
           exists w, walkOutput s (Sprintf_s_d breadcrumbs (Z.of_nat j)) c
                     = Returns w None) ->
        walkOutput s (Sprintf_s_d breadcrumbs (Z.of_nat (length pre))) child
        = Returns out (Some e) ->
        serializeArray s breadcrumbs cv = Returns AnyNil (Some e)
        /\ (ts s = FormatAsFlatArrays ->
            serializeTuple s breadcrumbs cv = Returns AnyNil (Some e)))
  /\ (forall pre child post out e,
        Children cv = pre ++ child :: post ->
        ts s = FormatAsObjects \/ ts s = FormatAsSelfDescribingArrays ->
        (forall j c, pre !! j = Some c -> fieldPasses s breadcrumbs j c) ->
        (ts s = FormatAsObjects -> Component child <> None) ->
        walkOutput s
          (Sprintf_s_s breadcrumbs (resolvedName s (length pre) child)) child
        = Returns out (Some e) ->
        serializeTuple s breadcrumbs cv = Returns AnyNil (Some e))
  /\ (forall c,
        Component cv = Some c ->
        (Component_ComponentType c = FixedArrayComponent
         \/ Component_ComponentType c = DynamicArrayComponent ->
         walkOutput s breadcrumbs cv = serializeArray s breadcrumbs cv)
        /\ (Component_ComponentType c = TupleComponent ->
            walkOutput s breadcrumbs cv = serializeTuple s breadcrumbs cv))
  /\ (forall out e,
        walkOutput s "" cv = Returns out (Some e) ->
        SerializeInterfaceCtx s cv = Returns AnyNil (Some e)
        /\ SerializeJSONCtx json_Marshal json_MarshalIndent s cv
           = Returns None (Some e)).
Proof.
  split; [|split; [|split; [|split]]].
  - intros out e. split; [|split].
    + apply walkOutput_error_nil.
    + apply serializeArray_error_nil.
    + apply serializeTuple_error_nil.
  - intros pre child post out e Hch Hpre Hchild.
    pose proof (serializeArray_first_error s breadcrumbs cv pre child post
                  out e Hch Hpre Hchild) as Harr.
    split; [exact Harr|]. intros Hts. rewrite <- Harr.
    unfold serializeTuple, serializeTupleWith, serializeArray,
      serializeArrayWith. by rewrite Hts.
  - intros pre child post out e. apply serializeTuple_first_error.
  - intros c Hc. rewrite (walkOutput_dispatch s breadcrumbs cv c Hc).
    split; [intros [-> | ->]|intros ->]; done.
  - intros out e Hwalk. unfold SerializeInterfaceCtx, SerializeJSONCtx.
    rewrite Hwalk. split; [|done].
    by rewrite (walkOutput_error_nil s "" cv out e Hwalk).
Qed.

(** *** Breadcrumbs *)

Lemma append_assoc (a b c : string) : ((a +:+ b) +:+ c = a +:+ (b +:+ c))%string.
Proof.
  induction a as [|x a IH]; [done|].
  change (String x ((a +:+ b) +:+ c) = String x (a +:+ (b +:+ c)))%string.
  by rewrite IH.
Qed.

Lemma append_empty_r (a : string) : (a +:+ "" = a)%string.
Proof.
  induction a as [|x a IH]; [done|].
  change (String x (a +:+ "") = String x a)%string. by rewrite IH.
Qed.

(** Induction over a value tree: a property holds of a node as soon as it
    holds of its children. *)
Lemma ComponentValue_tree_ind (P : ComponentValue BigFloat -> Prop) :
  (forall c ch v, Forall P ch -> P (mkComponentValue c ch v)) ->
  forall cv, P cv.
Proof.
  intros Hnode. fix IH 1. intros [c ch v]. apply Hnode.
  induction ch as [|child ch IHch]; constructor; [apply IH|apply IHch].
Qed.

Lemma forRange_Return_origin {St R}
    (body : nat -> ComponentValue BigFloat -> St -> LoopStep St R) l i st r :
  forRange body i l st = Return r ->
  exists j child st0,
    l !! j = Some child /\ body (i + j)%nat child st0 = Return r.
Proof.
  revert i st. induction l as [|c l IH]; intros i st; simpl; [done|].
  destruct (body i c st) as [st'|r0] eqn:Hb.
  - intros Hrun. apply IH in Hrun as (j & child & st0 & Hj & Hbody).
    exists (S j), child, st0. split; [done|].
    by replace (i + S j)%nat with (S i + j)%nat by lia.
  - intros [= <-]. exists 0%nat, c, st. by rewrite Nat.add_0_r.
Qed.

(** An error that comes out of a loop is the error of one of the walks
    made by the loop body. *)
Lemma loop_error_origin {St}
    (o : nat -> ComponentValue BigFloat -> option (Outcome BigFloat GoAny))
    (body : nat -> ComponentValue BigFloat -> St
            -> LoopStep St (Outcome BigFloat GoAny)) l st k out e :
  (forall j child st0 r, body j child st0 = Return r ->
     exists w, o j child = Some w /\
       ((exists v e0, w = Returns v (Some e0) /\ r = Returns AnyNil (Some e0))
        \/ (exists p, w = Panics p /\ r = Panics p))) ->
  finish (forRange body 0 l st) k = Returns out (Some e) ->
  exists j child v,
    l !! j = Some child /\ o j child = Some (Returns v (Some e)).
Proof.
  intros Hbody. destruct (forRange body 0 l st) as [st'|r] eqn:Hrun; [done|].
  simpl. intros ->.
  apply forRange_Return_origin in Hrun as (j & child & st0 & Hj & Hr).
  simpl in Hr. destruct (Hbody _ _ _ _ Hr) as (w & Hw & Hcase).
  destruct Hcase as [(v & e0 & -> & Heq)|(p & _ & Heq)]; [|discriminate].
  injection Heq as -> ->. by exists j, child, v.
Qed.





(** ** Further properties of the strategies and of the walk *)

(** *** Text of integers and bytes *)

Lemma BigInt_String_inj i j : BigInt_String i = BigInt_String j -> i = j.
Proof.
  intros Heq. pose proof (parse_base10_BigInt_String i) as Hi.
  rewrite Heq, parse_base10_BigInt_String in Hi. congruence.
Qed.

Lemma Decimal_digits_text u :
  NilEmpty.string_of_uint u = digits_text (Decimal_digits u).
Proof. induction u; simpl; [done|by rewrite IHu..]. Qed.

Lemma Decimal_digits_range u :
  Forall (fun d => 0 <= d < 10) (Decimal_digits u).
Proof. induction u; simpl; constructor; (lia || done). Qed.

Lemma Decimal_of_uint_acc u : forall acc,
  Z.pos (Pos.of_uint_acc u acc)
  = foldl (fun a d => a * 10 + d) (Z.pos acc) (Decimal_digits u).
Proof.
  induction u; intros acc; cbn [Pos.of_uint_acc Decimal_digits foldl];
    [done|rewrite IHu; f_equal; lia..].
Qed.

Lemma Decimal_of_uint u :
  Z.of_N (Pos.of_uint u) = digits_value 10 (Decimal_digits u).
Proof.
  unfold digits_value.
  induction u; cbn [Pos.of_uint Decimal_digits foldl]; [done|done|..];
    by rewrite N2Z.inj_pos, Decimal_of_uint_acc.
Qed.

(** The library's decimal numeral of a positive number is its positional
    notation in base 10. *)
Lemma Decimal_positional p :
  positional 10 (Decimal_digits (Pos.to_uint p)) (Z.pos p).
Proof.
  split; [apply Decimal_digits_range|]. split.
  - by rewrite <- Decimal_of_uint, DecimalPos.Unsigned.of_to.
  - pose proof (DecimalPos.Unsigned.to_of (Pos.to_uint p)) as Hnorm.
    rewrite DecimalPos.Unsigned.of_to in Hnorm. simpl in Hnorm.
    pose proof (DecimalPos.Unsigned.to_uint_nonnil p) as Hnil.
    pose proof (DecimalPos.Unsigned.to_uint_nonzero p) as Hzero.
    destruct (Pos.to_uint p) as [|u|u|u|u|u|u|u|u|u|u]; try done;
      try (simpl; by destruct (Decimal_digits u)).
    exfalso. unfold Decimal.unorm in Hnorm. simpl in Hnorm.
    destruct (Decimal.nzhead u) eqn:Hu; try discriminate.
    + injection Hnorm as Hu'. subst u. by apply Hzero.
    + by apply DecimalFacts.nzhead_nonzero in Hu.
Qed.

(** [big.Int.String]: a minus sign for a negative number, then the
    positional notation of the magnitude in base 10. *)
Lemma BigInt_String_positional i :
  exists ds,
    positional 10 ds (Z.abs i)
    /\ BigInt_String i
       = ((if (i <? 0)%Z then "-" else "") +:+ digits_text ds)%string.
Proof.
  destruct i as [|p|p].
  - exists [0]. split; [|done]. split; [repeat constructor; lia|done].
  - exists (Decimal_digits (Pos.to_uint p)).
    split; [apply Decimal_positional|].
    unfold BigInt_String. simpl.
    pose proof (DecimalPos.Unsigned.to_uint_nonnil p) as Hnil.
    unfold NilZero.string_of_uint.
    destruct (Pos.to_uint p); [done|apply Decimal_digits_text..].
  - exists (Decimal_digits (Pos.to_uint p)).
    split; [apply Decimal_positional|].
    unfold BigInt_String. simpl. f_equal.
    pose proof (DecimalPos.Unsigned.to_uint_nonnil p) as Hnil.
    unfold NilZero.string_of_uint.
    destruct (Pos.to_uint p); [done|apply Decimal_digits_text..].
Qed.

(** X1: the default integer strategy writes the base-10 text of the
    integer, whatever its size: a minus sign if it is negative, then the
    decimal digits of the magnitude from the most significant one, with no
    leading zero (zero is the single digit 0).  The text reads back as the
    integer, so two integers never share a text. *)
Theorem X1_base10_string_exact :
  (forall i, exists ds,
     positional 10 ds (Z.abs i)
     /\ Base10StringIntSerializer i
        = AnyString ((if (i <? 0)%Z then "-" else "") +:+ digits_text ds)%string
     /\ parse_base10
          ((if (i <? 0)%Z then "-" else "") +:+ digits_text ds)%string
        = Some i)
  /\ (forall i j,
        Base10StringIntSerializer i = Base10StringIntSerializer j -> i = j).
Proof.
  split.
  - intros i. destruct (BigInt_String_positional i) as (ds & Hds & Htext).
    exists ds. split; [exact Hds|]. rewrite <- Htext.
    split; [reflexivity|apply parse_base10_BigInt_String].
  - intros i j [= Heq]. by apply BigInt_String_inj.
Qed.

Lemma Hexadecimal_digits_text u :
  HexadecimalString.NilEmpty.string_of_uint u
  = digits_text (Hexadecimal_digits u).
Proof. induction u; simpl; [done|by rewrite IHu..]. Qed.

Lemma Hexadecimal_digits_range u :
  Forall (fun d => 0 <= d < 16) (Hexadecimal_digits u).
Proof. induction u; simpl; constructor; (lia || done). Qed.

Lemma Hexadecimal_of_uint_acc u : forall acc,
  Z.pos (Pos.of_hex_uint_acc u acc)
  = foldl (fun a d => a * 16 + d) (Z.pos acc) (Hexadecimal_digits u).
Proof.
  induction u; intros acc;
    cbn [Pos.of_hex_uint_acc Hexadecimal_digits foldl];
    [done|rewrite IHu; f_equal; lia..].
Qed.

Lemma Hexadecimal_of_uint u :
  Z.of_N (Pos.of_hex_uint u) = digits_value 16 (Hexadecimal_digits u).
Proof.
  unfold digits_value.
  induction u; cbn [Pos.of_hex_uint Hexadecimal_digits foldl]; [done|done|..];
    by rewrite N2Z.inj_pos, Hexadecimal_of_uint_acc.
Qed.

(** The library's hexadecimal numeral of a positive number is its
    positional notation in base 16. *)
Lemma Hexadecimal_positional p :
  positional 16 (Hexadecimal_digits (Pos.to_hex_uint p)) (Z.pos p).
Proof.
  split; [apply Hexadecimal_digits_range|]. split.
  - by rewrite <- Hexadecimal_of_uint, HexadecimalPos.Unsigned.of_to.
  - pose proof (HexadecimalPos.Unsigned.to_of (Pos.to_hex_uint p)) as Hnorm.
    rewrite HexadecimalPos.Unsigned.of_to in Hnorm. simpl in Hnorm.
    pose proof (HexadecimalPos.Unsigned.to_uint_nonnil p) as Hnil.
    pose proof (HexadecimalPos.Unsigned.to_uint_nonzero p) as Hzero.
    destruct (Pos.to_hex_uint p) as [|u|u|u|u|u|u|u|u|u|u|u|u|u|u|u|u];
      try done; try (simpl; by destruct (Hexadecimal_digits u)).
    exfalso. unfold Hexadecimal.unorm in Hnorm. simpl in Hnorm.
    destruct (Hexadecimal.nzhead u) eqn:Hu; try discriminate.
    + injection Hnorm as Hu'. subst u. by apply Hzero.
    + by apply HexadecimalFacts.nzhead_nonzero in Hu.
Qed.

(** [big.Int.Text(16)] of a magnitude: its positional notation in base
    16, in lower case. *)
Lemma BigInt_Text16_positional i :
  exists ds,
    positional 16 ds (Z.abs i)
    /\ BigInt_Text16 (Z.abs i) = digits_text ds.
Proof.
  assert (forall p, exists ds,
            positional 16 ds (Z.pos p)
            /\ BigInt_Text16 (Z.pos p) = digits_text ds) as Hpos.
  { intros p. exists (Hexadecimal_digits (Pos.to_hex_uint p)).
    split; [apply Hexadecimal_positional|].
    unfold BigInt_Text16. simpl.
    pose proof (HexadecimalPos.Unsigned.to_uint_nonnil p) as Hnil.
    unfold HexadecimalString.NilZero.string_of_uint.
    destruct (Pos.to_hex_uint p); [done|apply Hexadecimal_digits_text..]. }
  destruct i as [|p|p]; [|apply Hpos..].
  exists [0]. split; [|done]. split; [repeat constructor; lia|done].
Qed.

Lemma hex_uint_of_pos_roundtrip p :
  Z.of_hex_uint <$>
    HexadecimalString.NilZero.uint_of_string
      (HexadecimalString.NilZero.string_of_uint (Pos.to_hex_uint p))
  = Some (Z.pos p).
Proof.
  rewrite HexadecimalString.NilZero.usu.
  - simpl. f_equal. exact (HexadecimalZ.of_to (Z.pos p)).
  - apply HexadecimalPos.Unsigned.to_uint_nonnil.
Qed.

Lemma parse_base16_0x_roundtrip i :
  parse_base16_0x
    ((if (i <? 0)%Z then "-" else "") +:+ "0x" +:+ BigInt_Text16 (Z.abs i))%string
  = Some i.
Proof.
  destruct i as [|p|p]; [reflexivity| |].
  - change (Z.of_hex_uint <$>
              HexadecimalString.NilZero.uint_of_string
                (HexadecimalString.NilZero.string_of_uint (Pos.to_hex_uint p))
            = Some (Z.pos p)).
    apply hex_uint_of_pos_roundtrip.
  - change ((fun d => - Z.of_hex_uint d) <$>
              HexadecimalString.NilZero.uint_of_string
                (HexadecimalString.NilZero.string_of_uint (Pos.to_hex_uint p))
            = Some (Z.neg p)).
    pose proof (hex_uint_of_pos_roundtrip p) as Hp.
    destruct (HexadecimalString.NilZero.uint_of_string _) as [d|]; [|done].
    simpl in *. injection Hp as ->. done.
Qed.

(** X2: the prefixed base-16 strategy writes a minus sign if the integer
    is negative, then [0x], then the base-16 digits of the magnitude from
    the most significant one, in lower case and with no leading zero (zero
    is [0x0]).  The text reads back as the integer, so two integers never
    share a text. *)
Theorem X2_hex_int_0x_exact :
  (forall i, exists ds,
     positional 16 ds (Z.abs i)
     /\ HexIntSerializer0xPrefix i
        = AnyString
            ((if (i <? 0)%Z then "-" else "") +:+ "0x" +:+ digits_text ds)%string
     /\ parse_base16_0x
          ((if (i <? 0)%Z then "-" else "") +:+ "0x" +:+ digits_text ds)%string
        = Some i)
  /\ HexIntSerializer0xPrefix 0 = AnyString "0x0"
  /\ (forall i j,
        HexIntSerializer0xPrefix i = HexIntSerializer0xPrefix j -> i = j).
Proof.
  split; [|split].
  - intros i. destruct (BigInt_Text16_positional i) as (ds & Hds & Htext).
    exists ds. split; [exact Hds|]. rewrite <- Htext.
    split; [reflexivity|apply parse_base16_0x_roundtrip].
  - reflexivity.
  - intros i j [= Heq].
    pose proof (parse_base16_0x_roundtrip i) as Hi.
    rewrite Heq, parse_base16_0x_roundtrip in Hi. congruence.
Qed.

Lemma byte_of_Z_of_byte b : byte_of_Z (Z_of_byte b) = b.
Proof.
  unfold byte_of_Z, Z_of_byte.
  pose proof (Byte.to_N_bounded b) as Hb.
  rewrite Z.mod_small by lia. rewrite N2Z.id, Byte.of_to_N. done.
Qed.

Lemma Z_of_byte_range b : 0 <= Z_of_byte b < 256.
Proof. unfold Z_of_byte. pose proof (Byte.to_N_bounded b). lia. Qed.

Lemma hex_value_digit n : 0 <= n < 16 -> hex_value (hex_digit n) = Some n.
Proof.
  intros Hn. destruct n as [|p|p]; [reflexivity| |lia].
  do 4 (try (destruct p as [p|p|]; try reflexivity)); lia.
Qed.

Lemma hex_decode_encode b : hex_decode (hex_EncodeToString b) = Some b.
Proof.
  induction b as [|x b IH]; [done|].
  pose proof (Z_of_byte_range x) as Hx.
  simpl. rewrite !hex_value_digit, IH.
  - f_equal. f_equal. rewrite <- Z.div_mod by lia. apply byte_of_Z_of_byte.
  - apply Z.mod_pos_bound. lia.
  - split; [apply Z.div_pos; lia|apply Z.div_lt_upper_bound; lia].
Qed.

Lemma hex_EncodeToString_length b :
  String.length (hex_EncodeToString b) = (2 * length b)%nat.
Proof. induction b as [|x b IH]; simpl; [done|rewrite IH; lia]. Qed.

Lemma hex_digit_char n : 0 <= n < 16 -> hex_digit n = digit_char n.
Proof.
  intros Hn. destruct n as [|p|p]; [reflexivity| |lia].
  do 4 (try (destruct p as [p|p|]; try reflexivity)); lia.
Qed.

Lemma hex_EncodeToString_digits b :
  hex_EncodeToString b = digits_text (byte_digits b).
Proof.
  induction b as [|x b IH]; [done|].
  pose proof (Z_of_byte_range x) as Hx.
  unfold byte_digits in *. simpl. rewrite IH, !hex_digit_char; [done| |].
  - apply Z.mod_pos_bound. lia.
  - split; [apply Z.div_pos; lia|apply Z.div_lt_upper_bound; lia].
Qed.

(** X3: the hex byte strategy writes two base-16 digits a byte, in lower
    case, the byte's high half before its low half, first byte first: the
    text has twice as many characters as there are bytes and reads back as
    the bytes, so no two byte strings share a text; the prefixed strategy
    writes [0x] before the same digits, and the empty byte string gives
    the empty text. *)
Theorem X3_hex_bytes_exact :
  (forall b,
     HexByteSerializer b = AnyString (digits_text (byte_digits b))
     /\ HexByteSerializer0xPrefix b
        = AnyString ("0x" +:+ digits_text (byte_digits b))%string
     /\ Forall (fun d => 0 <= d < 16) (byte_digits b)
     /\ String.length (digits_text (byte_digits b)) = (2 * length b)%nat
     /\ hex_decode (digits_text (byte_digits b)) = Some b)
  /\ HexByteSerializer [] = AnyString ""
  /\ (forall b b', HexByteSerializer b = HexByteSerializer b' -> b = b').
Proof.
  split; [|split].
  - intros b. rewrite <- hex_EncodeToString_digits.
    split; [done|]. split; [done|]. split.
    + unfold byte_digits. induction b as [|x b IH]; simpl; [constructor|].
      pose proof (Z_of_byte_range x) as Hx.
      constructor; [|constructor; [|exact IH]].
      * split; [apply Z.div_pos; lia|apply Z.div_lt_upper_bound; lia].
      * apply Z.mod_pos_bound. lia.
    + split; [apply hex_EncodeToString_length|apply hex_decode_encode].
  - reflexivity.
  - intros b b' [= Heq].
    pose proof (hex_decode_encode b) as Hb.
    rewrite Heq, hex_decode_encode in Hb. congruence.
Qed.

(** X4: the default names of two different positions differ: under the
    numeric default-name generator the name is the base-10 text of the
    index. *)
Theorem X4_numeric_default_names_distinct (i j : Z) :
  NumericDefaultNameGenerator i = NumericDefaultNameGenerator j -> i = j.
Proof. apply BigInt_String_inj. Qed.

(** *** Numbers *)

Lemma NumberIfFits_inside i :
  Z.abs i <= 9007199254740991 ->
  NumberIfFitsOrBase10StringIntSerializer i = AnyFloat64 (float64_of_int64 i).
Proof.
  intros Hi. unfold NumberIfFitsOrBase10StringIntSerializer, BigInt_Cmp,
    maxSafeJSONNumberInt, minSafeJSONNumberInt.
  destruct (Z.compare_spec i 9007199254740991);
    destruct (Z.compare_spec i (-9007199254740991)); try lia; simpl;
    by rewrite BigInt_Int64_exact by lia.
Qed.

Lemma NumberIfFits_outside i :
  Z.abs i > 9007199254740991 ->
  NumberIfFitsOrBase10StringIntSerializer i = AnyString (BigInt_String i).
Proof.
  intros Hi. unfold NumberIfFitsOrBase10StringIntSerializer, BigInt_Cmp,
    maxSafeJSONNumberInt, minSafeJSONNumberInt.
  destruct (Z.compare_spec i 9007199254740991);
    destruct (Z.compare_spec i (-9007199254740991)); try lia; done.
Qed.

Lemma float64_of_int64_inj i j :
  Z.abs i < 2 ^ 53 -> Z.abs j < 2 ^ 53 ->
  float64_of_int64 i = float64_of_int64 j -> i = j.
Proof.
  intros Hi Hj Heq.
  destruct (float64_of_int64_exact i Hi) as (q & Hq & Hqi).
  destruct (float64_of_int64_exact j Hj) as (q' & Hq' & Hqj).
  rewrite Heq in Hq. assert (q = q') as -> by congruence.
  apply inject_Z_injective. by rewrite <- Hqi, <- Hqj.
Qed.

(** X5: the safe-range integer strategy loses nothing: two different
    integers never get the same result, be it a number or a text. *)
Theorem X5_number_if_fits_injective (i j : Z) :
  NumberIfFitsOrBase10StringIntSerializer i
  = NumberIfFitsOrBase10StringIntSerializer j ->
  i = j.
Proof.
  destruct (Z_le_gt_dec (Z.abs i) 9007199254740991) as [Hi|Hi];
    destruct (Z_le_gt_dec (Z.abs j) 9007199254740991) as [Hj|Hj];
    rewrite ?(NumberIfFits_inside i Hi), ?(NumberIfFits_outside i Hi),
      ?(NumberIfFits_inside j Hj), ?(NumberIfFits_outside j Hj);
    intros [= Heq].
  - apply float64_of_int64_inj; [lia|lia|done].
  - by apply BigInt_String_inj.
Qed.

Lemma BigInt_Int64_is_1 i :
  BigInt_Int64 i = 1
  <-> (0 <= i /\ i mod 2 ^ 64 = 1)
      \/ (i < 0 /\ (- i) mod 2 ^ 64 = 2 ^ 64 - 1).
Proof.
  unfold BigInt_Int64, int64_wrap, low64. rewrite Z.land_ones by lia.
  change (2 ^ 64) with 18446744073709551616.
  change (2 ^ 63) with 9223372036854775808.
  destruct (Z.ltb_spec i 0); split; intros Hi.
  - right. split; [lia|]. replace (Z.abs i) with (- i) in Hi by lia.
    Z.div_mod_to_equations. lia.
  - destruct Hi as [[? _]|[_ Hi]]; [lia|].
    replace (Z.abs i) with (- i) by lia. Z.div_mod_to_equations. lia.
  - left. split; [lia|]. replace (Z.abs i) with i in Hi by lia.
    Z.div_mod_to_equations. lia.
  - destruct Hi as [[_ Hi]|[? _]]; [|lia].
    replace (Z.abs i) with i by lia. Z.div_mod_to_equations. lia.
Qed.

(** X6: what a Bool node encodes to, for every integer.  The result is a
    boolean; it is [true] exactly when the low 64 bits of the magnitude,
    read with the sign, make 1: for a non-negative integer when it is 1
    modulo 2^64, for a negative one when its magnitude is 2^64 - 1 modulo
    2^64.  For an integer of the [int64] range that is: exactly for 1. *)
Theorem X6_bool_exact s breadcrumbs cv c i :
  Component cv = Some c ->
  Component_ElementaryType c = ElementaryTypeBool ->
  Value cv = ValueBigInt i ->
  exists b,
    serializeElementaryType s breadcrumbs cv = Returns (AnyBool b) None
    /\ (b = true
        <-> (0 <= i /\ i mod 2 ^ 64 = 1)
            \/ (i < 0 /\ (- i) mod 2 ^ 64 = 2 ^ 64 - 1))
    /\ (- 2 ^ 63 <= i < 2 ^ 63 -> (b = true <-> i = 1)).
Proof.
  intros Hc Het Hv. exists (BigInt_Int64 i =? 1). split; [|split].
  - unfold serializeElementaryType. by rewrite Hc, Het, Hv.
  - rewrite Z.eqb_eq. apply BigInt_Int64_is_1.
  - intros Hi. by rewrite Z.eqb_eq, BigInt_Int64_exact.
Qed.

(** *** Addresses *)

(** X7: an Address node whose integer does not fit 20 bytes (a magnitude
    of 2^160 or more) makes the encoder, and the walk of the node, panic
    on the too small buffer, whatever the strategies are. *)
Theorem X7_address_overflow_panics s breadcrumbs cv c i :
  Component cv = Some c ->
  Component_ComponentType c = ElementaryComponent ->
  Component_ElementaryType c = ElementaryTypeAddress ->
  Value cv = ValueBigInt i ->
  2 ^ 160 <= Z.abs i ->
  serializeElementaryType s breadcrumbs cv = Panics PanicBufferTooSmall
  /\ walkOutput s breadcrumbs cv = Panics PanicBufferTooSmall.
Proof.
  intros Hc Hct Het Hv Hi.
  pose proof (address_beyond_160_bits_panics s breadcrumbs cv c i Hc Het Hv Hi)
    as Hpanic.
  split; [exact Hpanic|].
  by rewrite (walkOutput_dispatch s breadcrumbs cv c Hc), Hct.
Qed.

(** X8: with the default configuration (no address strategy, hex bytes)
    an Address node that fits is written as exactly 40 base-16
    digits, the 20 bytes of the magnitude in big-endian order. *)
Theorem X8_default_address_text (floatText : BigFloat -> string)
    breadcrumbs cv c i :
  Component cv = Some c ->
  Component_ElementaryType c = ElementaryTypeAddress ->
  Value cv = ValueBigInt i ->
  Z.abs i < 2 ^ 160 ->
  exists str bytes,
    serializeElementaryType (NewSerializer floatText) breadcrumbs cv
    = Returns (AnyString str) None
    /\ String.length str = 40%nat
    /\ hex_decode str = Some bytes
    /\ length bytes = 20%nat
    /\ big_endian bytes = Z.abs i.
Proof.
  intros Hc Het Hv Hi.
  destruct (BigInt_FillBytes_fits 20 i (vreplicate 20 "000"%byte))
    as (addr & Hfill & Hbe); [exact Hi|].
  exists (hex_EncodeToString (vec_to_list addr)), (vec_to_list addr).
  split; [|split; [|split; [|split]]].
  - unfold serializeElementaryType. rewrite Hc, Het, Hv. simpl assertBigInt.
    cbv iota. by rewrite Hfill.
  - by rewrite hex_EncodeToString_length, length_vec_to_list.
  - apply hex_decode_encode.
  - apply length_vec_to_list.
  - exact Hbe.
Qed.

(** *** Two runs of a loop, step by step *)

Lemma forRange_ext {St R}
    (body body' : nat -> ComponentValue BigFloat -> St -> LoopStep St R)
    l i st :
  (forall j c st0, c ∈ l -> body j c st0 = body' j c st0) ->
  forRange body i l st = forRange body' i l st.
Proof.
  revert i st. induction l as [|c l IH]; intros i st Hbody; [done|].
  simpl. rewrite <- (Hbody i c st) by apply list_elem_of_here.
  destruct (body i c st) as [st'|r]; [|done].
  apply IH. intros j c' st0 Hc'. apply Hbody. by apply list_elem_of_further.
Qed.

Lemma forRange_related {St}
    (body body' : nat -> ComponentValue BigFloat -> St
                  -> LoopStep St (Outcome BigFloat GoAny))
    l i st :
  (forall j c st0, c ∈ l ->
     match body j c st0, body' j c st0 with
     | Continue a, Continue b => a = b
     | Return r, Return r' => sameButInserts r r'
     | _, _ => False
     end) ->
  match forRange body i l st, forRange body' i l st with
  | Continue a, Continue b => a = b
  | Return r, Return r' => sameButInserts r r'
  | _, _ => False
  end.
Proof.
  revert i st. induction l as [|c l IH]; intros i st Hbody; [done|].
  simpl. pose proof (Hbody i c st (list_elem_of_here _ _)) as Hstep.
  destruct (body i c st) as [a|r], (body' i c st) as [b|r']; try done.
  subst b. apply IH. intros j c' st0 Hc'. apply Hbody.
  by apply list_elem_of_further.
Qed.

Lemma walkChild_related {St} (o o' : Outcome BigFloat GoAny) (k : GoAny -> St) :
  sameButInserts o o' ->
  match walkChild o k, walkChild o' k with
  | Continue a, Continue b => a = b
  | Return r, Return r' => sameButInserts r r'
  | _, _ => False
  end.
Proof.
  destruct o as [v [[key ins|msg]|]|p], o' as [v' [[key' ins'|msg']|]|p'];
    simpl; try done.
  - by intros [_ ->].
  - by intros ->.
Qed.

Lemma finish_related {St}
    (r r' : LoopStep St (Outcome BigFloat GoAny)) (k : St -> GoAny) :
  match r, r' with
  | Continue a, Continue b => a = b
  | Return o, Return o' => sameButInserts o o'
  | _, _ => False
  end ->
  sameButInserts (finish r k) (finish r' k).
Proof. destruct r as [a|o], r' as [b|o']; simpl; try done. by intros ->. Qed.

(** *** Breadcrumbs *)

Lemma serializeElementaryType_crumbs s breadcrumbs breadcrumbs' cv :
  sameButInserts (serializeElementaryType s breadcrumbs cv)
    (serializeElementaryType s breadcrumbs' cv).
Proof.
  unfold serializeElementaryType.
  destruct (Component cv) as [c|]; [|done].
  destruct (Component_ElementaryType c);
    repeat match goal with
      | |- context [match ?x with _ => _ end] => destruct x
      end; done.
Qed.

Lemma walkOutput_crumbs cv : forall s breadcrumbs breadcrumbs',
  sameButInserts (walkOutput s breadcrumbs cv) (walkOutput s breadcrumbs' cv).
Proof.
  induction cv as [c ch val IH] using ComponentValue_tree_ind.
  intros s breadcrumbs breadcrumbs'. rewrite Forall_forall in IH.
  destruct c as [c|]; [|done].
  rewrite !(walkOutput_dispatch _ _ (mkComponentValue (Some c) ch val) c eq_refl).
  assert (forall (k : GoAny -> GoAny),
            sameButInserts
              (finish
                 (forRange
                    (fun i child (out : list GoAny) =>
                       walkChild
                         (walkOutput s (Sprintf_s_d breadcrumbs (Z.of_nat i)) child)
                         (fun v => <[i := k v]> out)) 0%nat ch
                    (replicate (length ch) AnyNil)) AnySlice)
              (finish
                 (forRange
                    (fun i child (out : list GoAny) =>
                       walkChild
                         (walkOutput s (Sprintf_s_d breadcrumbs' (Z.of_nat i)) child)
                         (fun v => <[i := k v]> out)) 0%nat ch
                    (replicate (length ch) AnyNil)) AnySlice)) as Hindexed.
  { intros k. apply finish_related, forRange_related.
    intros j child st0 Hchild. apply walkChild_related. by apply IH. }
  destruct (Component_ComponentType c).
  - apply serializeElementaryType_crumbs.
  - apply (Hindexed (fun v => v)).
  - apply (Hindexed (fun v => v)).
  - unfold serializeTuple, serializeTupleWith. simpl Children.
    destruct (ts s =? FormatAsObjects);
      [|destruct (ts s =? FormatAsFlatArrays);
        [|destruct (ts s =? FormatAsSelfDescribingArrays)]].
    + apply finish_related, forRange_related.
      intros j child st0 Hchild. destruct (Component child); [|done].
      apply walkChild_related. by apply IH.
    + apply (Hindexed (fun v => v)).
    + apply finish_related, forRange_related.
      intros j child st0 Hchild. apply walkChild_related. by apply IH.
    + done.
  - done.
Qed.

(** X9: breadcrumbs are diagnostics only.  Walking a tree under other
    breadcrumbs gives the same value when the walk succeeds, the same
    panic when it panics, and when it fails an error with the same message
    key and a nil value: only the inserts of the error can differ. *)
Theorem X9_breadcrumbs_do_not_change_the_outcome s breadcrumbs breadcrumbs' cv :
  sameButInserts (walkOutput s breadcrumbs cv) (walkOutput s breadcrumbs' cv)
  /\ (forall v, walkOutput s breadcrumbs cv = Returns v None ->
        walkOutput s breadcrumbs' cv = Returns v None)
  /\ (forall p, walkOutput s breadcrumbs cv = Panics p ->
        walkOutput s breadcrumbs' cv = Panics p)
  /\ (forall out key inserts,
        walkOutput s breadcrumbs cv = Returns out (Some (NewError key inserts)) ->
        exists inserts',
          walkOutput s breadcrumbs' cv
          = Returns AnyNil (Some (NewError key inserts'))).
Proof.
  pose proof (walkOutput_crumbs cv s breadcrumbs breadcrumbs') as Hsame.
  split; [exact Hsame|]. split; [|split].
  - intros v Hv. rewrite Hv in Hsame.
    destruct (walkOutput s breadcrumbs' cv) as [v' [e|]|p]; simpl in Hsame;
      [done|by subst|done].
  - intros p Hp. rewrite Hp in Hsame.
    destruct (walkOutput s breadcrumbs' cv) as [v' [e|]|p']; simpl in Hsame;
      [done|done|by subst].
  - intros out key inserts He.
    pose proof (walkOutput_error_nil s breadcrumbs cv out _ He) as ->.
    rewrite He in Hsame.
    destruct (walkOutput s breadcrumbs' cv) as [v' [[key' ins'|msg]|]|p'];
      simpl in Hsame; try done.
    destruct Hsame as [<- <-]. by eexists.
Qed.

(** *** What the walk reads of the policy set *)

Lemma describeChild_ext s s' i child :
  (forall j, dn s j = dn s' j) ->
  describeChild s i child = describeChild s' i child.
Proof. intros Hdn. unfold describeChild. by rewrite Hdn. Qed.

(** The walk reads the formatting mode and the strategies, pointwise; it
    does not read the pretty flag, nor, in flat-arrays mode, the
    default-name generator. *)
Lemma walkOutput_ext cv : forall s s' breadcrumbs,
  ts s = ts s' ->
  (forall i, is_ s i = is_ s' i) ->
  (forall f, fs s f = fs s' f) ->
  (forall b, bs s b = bs s' b) ->
  match ad s, ad s' with
  | Some adf, Some adf' => forall a, adf a = adf' a
  | None, None => True
  | _, _ => False
  end ->
  ts s = FormatAsFlatArrays \/ (forall i, dn s i = dn s' i) ->
  walkOutput s breadcrumbs cv = walkOutput s' breadcrumbs cv.
Proof.
  induction cv as [c ch val IH] using ComponentValue_tree_ind.
  intros s s' breadcrumbs Hts His Hfs Hbs Had Hdn. rewrite Forall_forall in IH.
  destruct c as [c|]; [|done].
  rewrite !(walkOutput_dispatch _ _ (mkComponentValue (Some c) ch val) c eq_refl).
  assert (serializeArray s breadcrumbs (mkComponentValue (Some c) ch val)
          = serializeArray s' breadcrumbs (mkComponentValue (Some c) ch val))
    as Harray.
  { unfold serializeArray, serializeArrayWith. f_equal. apply forRange_ext.
    intros j child st0 Hchild. f_equal. by apply IH. }
  destruct (Component_ComponentType c); [|exact Harray|exact Harray| |done].
  - unfold serializeElementaryType. simpl.
    destruct (Component_ElementaryType c); try done;
      destruct val; simpl; rewrite ?His, ?Hfs, ?Hbs; try done.
    destruct (BigInt_FillBytes i _) as [addr|]; [|done].
    destruct (ad s) as [adf|], (ad s') as [adf'|]; try done;
      by rewrite ?Had, ?Hbs.
  - unfold serializeTuple, serializeTupleWith. rewrite <- Hts.
    destruct (Z.eqb_spec (ts s) FormatAsObjects) as [Hobj|_];
      [|destruct (Z.eqb_spec (ts s) FormatAsFlatArrays) as [_|Hflat];
        [exact Harray|
         destruct (Z.eqb_spec (ts s) FormatAsSelfDescribingArrays); [|done]]].
    + destruct Hdn as [Hflat|Hdn]; [by rewrite Hobj in Hflat|].
      f_equal. apply forRange_ext. intros j child st0 Hchild.
      destruct (Component child); [|done]. rewrite <- Hdn.
      f_equal. apply IH; auto.
    + destruct Hdn as [?|Hdn]; [done|].
      f_equal. apply forRange_ext. intros j child st0 Hchild.
      rewrite <- (describeChild_ext s s' j child Hdn). f_equal.
      apply IH; auto.
Qed.

(** X10: the pretty flag plays no part in the walk.  Setting it changes
    neither the outcome of a walk nor what [SerializeInterfaceCtx]
    returns; after a successful walk [SerializeJSONCtx] hands the value to
    [json.MarshalIndent] when the flag is set and to [json.Marshal]
    otherwise, and returns what that gives, bytes and error. *)
Theorem X10_pretty_only_selects_the_marshaller s cv (flag : bool) :
  (forall breadcrumbs,
     walkOutput (SetPretty s flag) breadcrumbs cv = walkOutput s breadcrumbs cv)
  /\ SerializeInterfaceCtx (SetPretty s flag) cv = SerializeInterfaceCtx s cv
  /\ (forall v,
        walkOutput s "" cv = Returns v None ->
        SerializeJSONCtx json_Marshal json_MarshalIndent (SetPretty s flag) cv
        = Returns (if flag then json_MarshalIndent v else json_Marshal v).1
            (if flag then json_MarshalIndent v else json_Marshal v).2).
Proof.
  assert (forall breadcrumbs,
            walkOutput (SetPretty s flag) breadcrumbs cv
            = walkOutput s breadcrumbs cv) as Hwalk.
  { intros breadcrumbs. apply walkOutput_ext; simpl; try done.
    - by destruct (ad s).
    - by right. }
  split; [exact Hwalk|]. split; [apply Hwalk|].
  intros v Hv. unfold SerializeJSONCtx. rewrite Hwalk, Hv. simpl.
  by destruct flag; [destruct (json_MarshalIndent v)|destruct (json_Marshal v)].
Qed.

(** X11: in flat-arrays mode the default-name generator is not used: the
    walk of any tree has the same outcome under any other generator. *)
Theorem X11_flat_arrays_ignore_default_names s breadcrumbs cv
    (dn' : Z -> string) :
  ts s = FormatAsFlatArrays ->
  walkOutput (SetDefaultNameGenerator s dn') breadcrumbs cv
  = walkOutput s breadcrumbs cv.
Proof.
  intros Hflat. apply walkOutput_ext; simpl; try done.
  - by destruct (ad s).
  - by left.
Qed.

(** *** The trees that encode *)








(** *** Where errors and panics come from *)

Lemma nodes_root cv : cv ∈ nodes cv.
Proof. destruct cv as [c ch v]. simpl. apply list_elem_of_here. Qed.

Lemma nodes_child cv j child n :
  Children cv !! j = Some child -> n ∈ nodes child -> n ∈ nodes cv.
Proof.
  destruct cv as [c ch v]. simpl. intros Hj Hn.
  apply list_elem_of_further, list_elem_of_In, in_flat_map.
  exists child. split; apply list_elem_of_In; [|done].
  by apply list_elem_of_lookup_2 in Hj.
Qed.


(** One level of the walk: an error is made at the node, in one of four
    ways, or it is the error of the walk of a child. *)
Lemma walkOutput_error_cases s breadcrumbs cv out e :
  walkOutput s breadcrumbs cv = Returns out (Some e) ->
  (Component cv = None
   /\ e = NewError MsgBadABITypeComponent [InsertComponentValue cv])
  \/ (exists c k,
        Component cv = Some c
        /\ Component_ComponentType c = OtherComponent k
        /\ e = NewError MsgBadABITypeComponent [InsertComponent c])
  \/ (exists c name,
        Component cv = Some c
        /\ Component_ComponentType c = ElementaryComponent
        /\ Component_ElementaryType c = ElementaryTypeOther name
        /\ e = NewError MsgUnknownABIElementaryType
                 [InsertElementaryType (ElementaryTypeOther name);
                  InsertBreadcrumbs breadcrumbs])
  \/ (exists c,
        Component cv = Some c
        /\ Component_ComponentType c = TupleComponent
        /\ ~ knownMode (ts s)
        /\ e = NewError MsgUnknownTupleSerializer [InsertFormattingMode (ts s)])
  \/ (exists j child segment v,
        Children cv !! j = Some child
        /\ walkOutput s (breadcrumbs +:+ segment) child = Returns v (Some e)).
Proof.
  destruct (Component cv) as [c|] eqn:Hc;
    [|rewrite walkOutput_nil_descriptor by done; intros [= <- <-]; by left].
  rewrite (walkOutput_dispatch s breadcrumbs cv c Hc).
  assert (forall l (out0 : list GoAny) k,
            finish
              (forRange
                 (fun i child (out1 : list GoAny) =>
                    walkChild
                      (walkOutput s (Sprintf_s_d breadcrumbs (Z.of_nat i)) child)
                      (fun v => <[i := v]> out1)) 0%nat l out0) k
            = Returns out (Some e) ->
            exists j child segment v,
              l !! j = Some child
              /\ walkOutput s (breadcrumbs +:+ segment) child
                 = Returns v (Some e)) as Hindexed.
  { intros l out0 k Hrun.
    apply (loop_error_origin
             (fun i child =>
                Some (walkOutput s (Sprintf_s_d breadcrumbs (Z.of_nat i)) child)))
      in Hrun as (j & child & v & Hj & [= Hv]).
    - by exists j, child, ("[" +:+ BigInt_String (Z.of_nat j) +:+ "]")%string, v.
    - intros j child st0 r Hr. eexists. split; [done|].
      by apply walkChild_Return in Hr. }
  destruct (Component_ComponentType c) eqn:Hct.
  - intros He. right. right. left. revert He.
    unfold serializeElementaryType. rewrite Hc.
    destruct (Component_ElementaryType c) eqn:Het;
      repeat match goal with
        | |- context [match ?x with _ => _ end] => destruct x
        end; intros [= <- <-].
    by exists c, name.
  - intros He. do 4 right. by apply Hindexed in He.
  - intros He. do 4 right. by apply Hindexed in He.
  - unfold serializeTuple, serializeTupleWith.
    destruct (Z.eqb_spec (ts s) FormatAsObjects) as [?|Hn0];
      [|destruct (Z.eqb_spec (ts s) FormatAsFlatArrays) as [?|Hn1];
        [|destruct (Z.eqb_spec (ts s) FormatAsSelfDescribingArrays) as [?|Hn2]]].
    + intros He. do 4 right.
      apply (loop_error_origin
               (fun i child =>
                  match Component child with
                  | Some _ =>
                      Some (walkOutput s
                              (Sprintf_s_s breadcrumbs (resolvedName s i child))
                              child)
                  | None => None
                  end)) in He as (j & child & v & Hj & Hv).
      * destruct (Component child); [|done]. injection Hv as Hv.
        by exists j, child, ("[" +:+ resolvedName s j child +:+ "]")%string, v.
      * intros j child st0 r. unfold resolvedName.
        destruct (Component child) as [tc|]; [|done].
        intros Hr. eexists. split; [done|]. by apply walkChild_Return in Hr.
    + intros He. do 4 right. by apply Hindexed in He.
    + intros He. do 4 right.
      apply (loop_error_origin
               (fun i child =>
                  Some (walkOutput s
                          (Sprintf_s_s breadcrumbs (resolvedName s i child))
                          child))) in He as (j & child & v & Hj & [= Hv]).
      * by exists j, child, ("[" +:+ resolvedName s j child +:+ "]")%string, v.
      * intros j child st0 r Hr. eexists. split; [done|].
        rewrite <- describeChild_walk. by apply walkChild_Return in Hr.
    + intros [= <- <-]. do 3 right. left. exists c.
      split; [done|]. split; [done|]. split; [|done].
      intros [?|[?|?]]; done.
  - intros [= <- <-]. right. left. by exists c, n.
Qed.

(** X13: every error of a walk names its cause in the tree.  It is
    [BadComponent] with a node of the tree that has no descriptor, or
    [BadComponent] with the descriptor of a node of the tree whose variant
    is not known, or [UnknownElementaryType] with the unrecognized kind of
    a leaf of the tree and breadcrumbs that extend those of the walk, or
    [UnknownTupleSerializer] with the formatting mode, which is then not
    one of the three known modes, the tree holding a tuple.  The walk
    makes no other error. *)
Theorem X13_errors_name_their_cause cv : forall s breadcrumbs out e,
  walkOutput s breadcrumbs cv = Returns out (Some e) ->
  (exists n,
     n ∈ nodes cv /\ Component n = None
     /\ e = NewError MsgBadABITypeComponent [InsertComponentValue n])
  \/ (exists n c k,
        n ∈ nodes cv /\ Component n = Some c
        /\ Component_ComponentType c = OtherComponent k
        /\ e = NewError MsgBadABITypeComponent [InsertComponent c])
  \/ (exists n c name suffix,
        n ∈ nodes cv /\ Component n = Some c
        /\ Component_ComponentType c = ElementaryComponent
        /\ Component_ElementaryType c = ElementaryTypeOther name
        /\ e = NewError MsgUnknownABIElementaryType
                 [InsertElementaryType (ElementaryTypeOther name);
                  InsertBreadcrumbs (breadcrumbs +:+ suffix)])
  \/ (exists n c,
        n ∈ nodes cv /\ Component n = Some c
        /\ Component_ComponentType c = TupleComponent
        /\ ~ knownMode (ts s)
        /\ e = NewError MsgUnknownTupleSerializer [InsertFormattingMode (ts s)]).
Proof.
  induction cv as [c ch val IH] using ComponentValue_tree_ind.
  intros s breadcrumbs out e Hwalk. rewrite Forall_lookup in IH.
  pose proof (nodes_root (mkComponentValue c ch val)) as Hroot.
  destruct (walkOutput_error_cases s breadcrumbs _ out e Hwalk)
    as [[Hc ->]|[(c' & k & Hc & Hct & ->)|[(c' & name & Hc & Hct & Het & ->)
       |[(c' & Hc & Hct & Hmode & ->)|(j & child & segment & v & Hj & Hchild)]]]].
  - left. by eexists.
  - right. left. by exists (mkComponentValue c ch val), c', k.
  - right. right. left.
    exists (mkComponentValue c ch val), c', name, ""%string.
    by rewrite append_empty_r.
  - do 3 right. by exists (mkComponentValue c ch val), c'.
  - simpl in Hj.
    pose proof (fun n => nodes_child (mkComponentValue c ch val) j child n Hj)
      as Hin.
    destruct (IH j child Hj s _ v e Hchild)
      as [(n & Hn & Hnc & ->)|[(n & c' & k & Hn & Hnc & Hct & ->)
         |[(n & c' & name & suffix & Hn & Hnc & Hct & Het & ->)
          |(n & c' & Hn & Hnc & Hct & Hmode & ->)]]].
    + left. exists n. auto.
    + right. left. exists n, c', k. auto.
    + right. right. left. exists n, c', name, (segment +:+ suffix)%string.
      rewrite append_assoc. auto.
    + do 3 right. exists n, c'. auto.
Qed.





(** *** The first child that does not encode *)

Lemma walkOutput_value_crumbs s breadcrumbs breadcrumbs' cv v :
  walkOutput s breadcrumbs cv = Returns v None ->
  walkOutput s breadcrumbs' cv = Returns v None.
Proof.
  intros Hv. pose proof (walkOutput_crumbs cv s breadcrumbs breadcrumbs') as Hsame.
  rewrite Hv in Hsame.
  destruct (walkOutput s breadcrumbs' cv) as [v' [e|]|p]; simpl in Hsame;
    [done|by subst|done].
Qed.

Lemma walkOutput_panic_crumbs s breadcrumbs breadcrumbs' cv p :
  walkOutput s breadcrumbs cv = Panics p ->
  walkOutput s breadcrumbs' cv = Panics p.
Proof.
  intros Hp. pose proof (walkOutput_crumbs cv s breadcrumbs breadcrumbs') as Hsame.
  rewrite Hp in Hsame.
  destruct (walkOutput s breadcrumbs' cv) as [v' [e|]|p']; simpl in Hsame;
    [done|done|by subst].
Qed.

(** What a composite node does with a child that does not encode, the
    children before it having gone through: the outcome [r] of the node is
    the one the loop body hands back for that child. *)
Lemma composite_stops_at s breadcrumbs cv c pre child post
    (r : Outcome BigFloat GoAny) :
  Component cv = Some c ->
  Children cv = pre ++ child :: post ->
  (Component_ComponentType c = FixedArrayComponent
   \/ Component_ComponentType c = DynamicArrayComponent
   \/ (Component_ComponentType c = TupleComponent /\ knownMode (ts s))) ->
  (forall f, f ∈ pre ->
     (Component_ComponentType c = TupleComponent
      /\ ts s = FormatAsObjects /\ Component f = None)
     \/ exists crumbs v, walkOutput s crumbs f = Returns v None) ->
  (Component_ComponentType c = TupleComponent -> ts s = FormatAsObjects ->
   Component child <> None) ->
  (forall St (k : GoAny -> St) crumbs,
     walkChild (walkOutput s crumbs child) k = Return r) ->
  walkOutput s breadcrumbs cv = r.
Proof.
  intros Hc Hch Hkind Hpre Hdesc Hchild.
  rewrite (walkOutput_dispatch s breadcrumbs cv c Hc).
  assert (forall f, f ∈ pre ->
            (Component_ComponentType c = TupleComponent ->
             ts s = FormatAsObjects -> Component f <> None) ->
            forall crumbs, exists v, walkOutput s crumbs f = Returns v None)
    as Hpass.
  { intros f Hf Hnot crumbs.
    destruct (Hpre f Hf) as [(Ht & Ho & Hn)|(crumbs0 & v & Hv)].
    - by destruct (Hnot Ht Ho).
    - exists v. by apply (walkOutput_value_crumbs s crumbs0). }
  assert ((Component_ComponentType c = TupleComponent ->
           ts s <> FormatAsObjects) ->
          serializeArray s breadcrumbs cv = r) as Harray.
  { intros Hnot. unfold serializeArray, serializeArrayWith. rewrite Hch.
    rewrite (forRange_stops _ pre child post 0 _ r); [done| |].
    - intros j f st0 Hj. apply list_elem_of_lookup_2 in Hj.
      destruct (Hpass f Hj) with
        (crumbs := Sprintf_s_d breadcrumbs (Z.of_nat (0 + j))) as [v Hv].
      + intros Ht Ho. by destruct (Hnot Ht).
      + simpl in Hv |- *. rewrite Hv. by eexists.
    - intros st0. apply Hchild. }
  destruct Hkind as [Hk | [Hk | [Hct Hmode]]].
  - rewrite Hk. apply Harray. by rewrite Hk.
  - rewrite Hk. apply Harray. by rewrite Hk.
  - rewrite Hct. unfold serializeTuple, serializeTupleWith.
    destruct Hmode as [Hts|[Hts|Hts]].
    + rewrite Hts, Hch. simpl Z.eqb. cbv iota.
      rewrite (forRange_stops _ pre child post 0 _ r); [done| |].
      * intros j f st0 Hj. apply list_elem_of_lookup_2 in Hj. simpl.
        destruct (Component f) as [tc|] eqn:Hf; [|by eexists].
        destruct (Hpass f Hj) with
          (crumbs := Sprintf_s_s breadcrumbs
                       (if String.eqb (Component_KeyName tc) ""
                        then dn s (Z.of_nat j) else Component_KeyName tc))
          as [v Hv]; [intros _ _; congruence|].
        rewrite Hv. by eexists.
      * intros st0. simpl.
        destruct (Component child) as [tc|] eqn:Hcc;
          [apply Hchild|by destruct (Hdesc Hct Hts)].
    + rewrite Hts. simpl Z.eqb. cbv iota. apply Harray.
      intros _. by rewrite Hts.
    + rewrite Hts, Hch. simpl Z.eqb. cbv iota.
      rewrite (forRange_stops _ pre child post 0 _ r); [done| |].
      * intros j f st0 Hj. apply list_elem_of_lookup_2 in Hj. simpl.
        destruct (Hpass f Hj) with
          (crumbs := Sprintf_s_s breadcrumbs
                       (fmt_s (describeChild s j f !! "name"%string)))
          as [v Hv]; [intros _ Ho; by rewrite Hts in Ho|].
        rewrite Hv. by eexists.
      * intros st0. apply Hchild.
Qed.

(** X15: the first child that panics ends the walk of its parent with the
    same panic.  For an array node, and for a tuple node in a known mode:
    when the children before it encode (in objects mode a tuple's child
    without descriptor is passed over) and the walk of the child panics,
    under whatever breadcrumbs, the walk of the node panics in the same
    way; the children after it play no part.  A panic of the walk is the
    panic of [SerializeInterfaceCtx] and of [SerializeJSONCtx]. *)
Theorem X15_first_child_panic_aborts s breadcrumbs cv c pre child post crumbs p :
  Component cv = Some c ->
  Children cv = pre ++ child :: post ->
  (Component_ComponentType c = FixedArrayComponent
   \/ Component_ComponentType c = DynamicArrayComponent
   \/ (Component_ComponentType c = TupleComponent /\ knownMode (ts s))) ->
  (forall f, f ∈ pre ->
     (Component_ComponentType c = TupleComponent
      /\ ts s = FormatAsObjects /\ Component f = None)
     \/ exists crumbs0 v, walkOutput s crumbs0 f = Returns v None) ->
  walkOutput s crumbs child = Panics p ->
  walkOutput s breadcrumbs cv = Panics p
  /\ (breadcrumbs = ""%string ->
      SerializeInterfaceCtx s cv = Panics p
      /\ SerializeJSONCtx json_Marshal json_MarshalIndent s cv = Panics p).
Proof.
  intros Hc Hch Hkind Hpre Hchild.
  assert (walkOutput s breadcrumbs cv = Panics p) as Hwalk.
  { apply (composite_stops_at s breadcrumbs cv c pre child post); try done.
    - intros _ _ Hnil.
      by rewrite (walkOutput_nil_descriptor s crumbs child Hnil) in Hchild.
    - intros St k crumbs'.
      by rewrite (walkOutput_panic_crumbs s crumbs crumbs' child p Hchild). }
  split; [exact Hwalk|]. intros ->.
  unfold SerializeInterfaceCtx, SerializeJSONCtx. by rewrite Hwalk.
Qed.

(** X16: a child without descriptor in an array, or in a tuple walked in
    flat-arrays or self-describing mode, fails the node: when the children
    before it encode, the walk of the node returns [BadComponent] carrying
    that child, and no value. *)
Theorem X16_child_without_descriptor_fails s breadcrumbs cv c pre child post :
  Component cv = Some c ->
  Children cv = pre ++ child :: post ->
  (Component_ComponentType c = FixedArrayComponent
   \/ Component_ComponentType c = DynamicArrayComponent
   \/ (Component_ComponentType c = TupleComponent
       /\ (ts s = FormatAsFlatArrays
           \/ ts s = FormatAsSelfDescribingArrays))) ->
  (forall f, f ∈ pre -> exists crumbs v, walkOutput s crumbs f = Returns v None) ->
  Component child = None ->
  walkOutput s breadcrumbs cv
  = Returns AnyNil
      (Some (NewError MsgBadABITypeComponent [InsertComponentValue child])).
Proof.
  intros Hc Hch Hkind Hpre Hnil.
  apply (composite_stops_at s breadcrumbs cv c pre child post); try done.
  - destruct Hkind as [?|[?|[? [Hts|Hts]]]]; auto;
      right; right; (split; [done|]); unfold knownMode; auto.
  - intros f Hf. right. by apply Hpre.
  - intros Ht Hobj.
    destruct Hkind as [Hk|[Hk|[_ [Hts|Hts]]]];
      [by rewrite Ht in Hk|by rewrite Ht in Hk|
       by rewrite Hobj in Hts|by rewrite Hobj in Hts].
  - intros St k crumbs. by rewrite walkOutput_nil_descriptor.
Qed.

(** *** Arrays and objects that come out *)

(** X17: what the walk of an array node gives, fixed and dynamic arrays
    alike.  A value comes out exactly when every child encodes under the
    breadcrumbs extended by its index; the value is then an array with one
    element a child, element [j] being the value of child [j]; an array
    node without children gives the empty array. *)
Theorem X17_array_walk s breadcrumbs cv c :
  Component cv = Some c ->
  Component_ComponentType c = FixedArrayComponent
  \/ Component_ComponentType c = DynamicArrayComponent ->
  (forall out, walkOutput s breadcrumbs cv = Returns out None ->
     exists entries, out = AnySlice entries)
  /\ (forall entries,
        walkOutput s breadcrumbs cv = Returns (AnySlice entries) None
        <->
        length entries = length (Children cv)
        /\ forall j child, Children cv !! j = Some child ->
             exists v,
               walkOutput s (Sprintf_s_d breadcrumbs (Z.of_nat j)) child
               = Returns v None
               /\ entries !! j = Some v)
  /\ (Children cv = [] ->
      walkOutput s breadcrumbs cv = Returns (AnySlice []) None).
Proof.
  intros Hc Hkind.
  assert (walkOutput s breadcrumbs cv = serializeArray s breadcrumbs cv) as ->
    by (rewrite (walkOutput_dispatch s breadcrumbs cv c Hc);
        by destruct Hkind as [-> | ->]).
  split; [|split].
  - intros out. unfold serializeArray, serializeArrayWith.
    destruct (forRange _ _ _ _) as [st'|r] eqn:Hrun; simpl.
    + intros [= <-]. by eexists.
    + intros ->. apply forRange_abrupt in Hrun as [[e [=]]|[p [=]]].
      intros j c' st0 r0. apply walkChild_abrupt.
  - intros entries. apply serializeArray_entries.
  - intros Hch. unfold serializeArray, serializeArrayWith. by rewrite Hch.
Qed.

(** X18: a tuple without children encodes, whatever else the tree holds:
    to the empty object in objects mode, to the empty array in flat-arrays
    and self-describing modes. *)
Theorem X18_empty_tuple s breadcrumbs cv c :
  Component cv = Some c ->
  Component_ComponentType c = TupleComponent ->
  Children cv = [] ->
  (ts s = FormatAsObjects ->
   walkOutput s breadcrumbs cv = Returns (AnyMap ∅) None)
  /\ (ts s = FormatAsFlatArrays \/ ts s = FormatAsSelfDescribingArrays ->
      walkOutput s breadcrumbs cv = Returns (AnySlice []) None).
Proof.
  intros Hc Hct Hch. rewrite (walkOutput_dispatch s breadcrumbs cv c Hc), Hct.
  unfold serializeTuple, serializeTupleWith. rewrite Hch.
  split; [intros -> | intros [-> | ->]]; reflexivity.
Qed.

Lemma serializeTuple_objects_inv s breadcrumbs cv m :
  ts s = FormatAsObjects ->
  serializeTuple s breadcrumbs cv = Returns (AnyMap m) None ->
  exists vs,
    Forall2 (fun field v =>
               walkOutput s (Sprintf_s_s breadcrumbs field.1) field.2
               = Returns v None)
      (namedChildren s (Children cv)) vs
    /\ m = objectOf (zip (namedChildren s (Children cv)).*1 vs).
Proof.
  intros Hts. unfold serializeTuple, serializeTupleWith. rewrite Hts.
  simpl Z.eqb. cbv iota.
  destruct (forRange _ _ _ _) as [m'|r] eqn:Hloop; simpl.
  - intros [= <-]. by apply objects_run in Hloop.
  - intros ->. apply forRange_abrupt in Hloop as [[e [=]]|[p [=]]].
    intros j c st0 r0. destruct (Component c); [|done]. apply walkChild_abrupt.
Qed.

Lemma NoDup_reverse {A} (l : list A) : NoDup l -> NoDup (reverse l).
Proof. by rewrite reverse_Permutation. Qed.

Lemma objectOf_is_Some bindings name :
  is_Some (objectOf bindings !! name) <-> name ∈ bindings.*1.
Proof.
  rewrite objectOf_reverse, <- not_eq_None_Some.
  rewrite <- (elem_of_reverse name (bindings.*1)), <- fmap_reverse.
  split.
  - intros Hsome. destruct (decide (name ∈ (reverse bindings).*1)); [done|].
    by destruct Hsome; apply not_elem_of_list_to_map_1.
  - intros Hin Hnone. by apply not_elem_of_list_to_map_2 in Hnone.
Qed.

(** X19: the keys of the object a tuple encodes to.  In objects mode the
    object has a key exactly for the resolved names of the children that
    have a descriptor.  When these names are pairwise different nothing is
    lost: the object has as many keys as there are such children, and
    each child's value is found under its name. *)
Theorem X19_object_keys s breadcrumbs cv m :
  ts s = FormatAsObjects ->
  serializeTuple s breadcrumbs cv = Returns (AnyMap m) None ->
  (forall name,
     is_Some (m !! name) <-> name ∈ (namedChildren s (Children cv)).*1)
  /\ (NoDup (namedChildren s (Children cv)).*1 ->
      size m = length (namedChildren s (Children cv))
      /\ forall name child,
           (name, child) ∈ namedChildren s (Children cv) ->
           exists v,
             walkOutput s (Sprintf_s_s breadcrumbs name) child = Returns v None
             /\ m !! name = Some v).
Proof.
  intros Hts Hrun.
  destruct (serializeTuple_objects_inv s breadcrumbs cv m Hts Hrun)
    as (vs & Hvs & ->).
  pose proof (Forall2_length _ _ _ Hvs) as Hlen.
  assert ((zip (namedChildren s (Children cv)).*1 vs).*1
          = (namedChildren s (Children cv)).*1) as Hfst
    by (apply fst_zip; rewrite length_fmap; lia).
  split.
  - intros name. by rewrite objectOf_is_Some, Hfst.
  - intros Hnodup. rewrite objectOf_reverse. split.
    + rewrite map_size_list_to_map.
      * by rewrite length_reverse, length_zip, length_fmap, <- Hlen, Nat.min_id.
      * rewrite fmap_reverse, Hfst. by apply NoDup_reverse.
    + intros name child Hin.
      apply list_elem_of_lookup_1 in Hin as [j Hj].
      destruct (Forall2_lookup_l _ _ _ j _ Hvs Hj) as (v & Hv & Hwalk).
      exists v. split; [exact Hwalk|].
      apply elem_of_list_to_map_1.
      * rewrite fmap_reverse, Hfst. by apply NoDup_reverse.
      * apply elem_of_reverse, list_elem_of_lookup_2 with j.
        apply lookup_zip_Some. split; [|done].
        by rewrite list_lookup_fmap, Hj.
Qed.

Lemma namedChildrenFrom_unnamed s l : forall i,
  (forall a b : nat, dn s (Z.of_nat a) = dn s (Z.of_nat b) -> a = b) ->
  (forall child c, child ∈ l -> Component child = Some c ->
     Component_KeyName c = ""%string) ->
  NoDup (namedChildrenFrom s i l).*1
  /\ (forall name, name ∈ (namedChildrenFrom s i l).*1 ->
        exists j, (i <= j)%nat /\ name = dn s (Z.of_nat j))
  /\ (forall j child, l !! j = Some child -> Component child <> None ->
        (dn s (Z.of_nat (i + j)), child) ∈ namedChildrenFrom s i l).
Proof.
  intros i Hinj. revert i. induction l as [|x l IH]; intros i Hunnamed.
  - split; [constructor|]. split; [by intros name Hin; inversion Hin|done].
  - destruct (IH (S i)) as (Hnodup & Hfrom & Hat).
    { intros child c Hchild. apply Hunnamed. by apply list_elem_of_further. }
    simpl. destruct (Component x) as [c|] eqn:Hx.
    + assert (resolvedName s i x = dn s (Z.of_nat i)) as Hname.
      { unfold resolvedName. rewrite Hx.
        by rewrite (Hunnamed x c (list_elem_of_here _ _) Hx). }
      rewrite Hname. simpl. split; [|split].
      * apply NoDup_cons. split; [|exact Hnodup].
        intros Hin. apply Hfrom in Hin as (j & Hj & Heq).
        apply Hinj in Heq. lia.
      * intros name [->|Hin]%elem_of_cons; [by exists i|].
        apply Hfrom in Hin as (j & Hj & ->). exists j. split; [lia|done].
      * intros [|j] child Hj Hdesc; simpl in Hj.
        -- simplify_eq. rewrite Nat.add_0_r. apply list_elem_of_here.
        -- apply list_elem_of_further.
           replace (i + S j)%nat with (S i + j)%nat by lia. by apply Hat.
    + split; [exact Hnodup|]. split.
      * intros name Hin. apply Hfrom in Hin as (j & Hj & ->).
        exists j. split; [lia|done].
      * intros [|j] child Hj Hdesc; simpl in Hj.
        -- simplify_eq.
        -- replace (i + S j)%nat with (S i + j)%nat by lia. by apply Hat.
Qed.

(** X20: unnamed fields do not overwrite each other.  In objects mode,
    under a default-name generator that gives different names to
    different positions (the numeric one does), a tuple whose fields all
    have an empty declared name encodes to an object in which the value of
    every child with a descriptor is found under [DefaultName(index)],
    with no other keys. *)
Theorem X20_unnamed_fields_are_all_kept s breadcrumbs cv m :
  ts s = FormatAsObjects ->
  (forall a b : nat, dn s (Z.of_nat a) = dn s (Z.of_nat b) -> a = b) ->
  (forall child c, child ∈ Children cv -> Component child = Some c ->
     Component_KeyName c = ""%string) ->
  serializeTuple s breadcrumbs cv = Returns (AnyMap m) None ->
  (forall j child,
     Children cv !! j = Some child -> Component child <> None ->
     exists v,
       walkOutput s (Sprintf_s_s breadcrumbs (dn s (Z.of_nat j))) child
       = Returns v None
       /\ m !! dn s (Z.of_nat j) = Some v)
  /\ (forall name, is_Some (m !! name) ->
        exists j child,
          Children cv !! j = Some child /\ Component child <> None
          /\ name = dn s (Z.of_nat j)).
Proof.
  intros Hts Hinj Hunnamed Hrun.
  destruct (namedChildrenFrom_unnamed s (Children cv) 0 Hinj Hunnamed)
    as (Hnodup & _ & Hat).
  destruct (serializeTuple_objects_inv s breadcrumbs cv m Hts Hrun)
    as (vs & Hvs & ->).
  pose proof (Forall2_length _ _ _ Hvs) as Hlen.
  assert ((zip (namedChildren s (Children cv)).*1 vs).*1
          = (namedChildren s (Children cv)).*1) as Hfst
    by (apply fst_zip; rewrite length_fmap; lia).
  split.
  - intros j child Hj Hdesc. specialize (Hat j child Hj Hdesc). simpl in Hat.
    apply list_elem_of_lookup_1 in Hat as [k Hk].
    destruct (Forall2_lookup_l _ _ _ k _ Hvs Hk) as (v & Hv & Hwalk).
    exists v. split; [exact Hwalk|].
    rewrite objectOf_reverse. apply elem_of_list_to_map_1.
    + rewrite fmap_reverse, Hfst. by apply NoDup_reverse.
    + apply elem_of_reverse, list_elem_of_lookup_2 with k.
      apply lookup_zip_Some. split; [|done].
      unfold namedChildren. by rewrite list_lookup_fmap, Hk.
  - intros name Hsome. apply objectOf_is_Some in Hsome. rewrite Hfst in Hsome.
    apply list_elem_of_fmap in Hsome as ([name' child] & -> & Hin).
    clear -Hin Hunnamed. unfold namedChildren in Hin.
    assert (forall l i,
              (forall child c, child ∈ l -> Component child = Some c ->
                 Component_KeyName c = ""%string) ->
              (name', child) ∈ namedChildrenFrom s i l ->
              exists j, l !! j = Some child /\ Component child <> None
                        /\ name' = dn s (Z.of_nat (i + j))) as Hfind.
    { induction l as [|x l IH]; intros i Hun Hmem; simpl in Hmem;
        [by inversion Hmem|].
      assert (forall j, l !! j = Some child /\ Component child <> None
                        /\ name' = dn s (Z.of_nat (S i + j)) ->
                exists j0, (x :: l) !! j0 = Some child
                           /\ Component child <> None
                           /\ name' = dn s (Z.of_nat (i + j0))) as Hshift.
      { intros j (Hj & Hd & ->). exists (S j).
        by replace (i + S j)%nat with (S i + j)%nat by lia. }
      assert (forall child0 c, child0 ∈ l -> Component child0 = Some c ->
                Component_KeyName c = ""%string) as Hun'
        by (intros child0 c Hc0; apply Hun; by apply list_elem_of_further).
      destruct (Component x) as [c|] eqn:Hx.
      - apply elem_of_cons in Hmem as [[= -> ->]|Hmem].
        + exists 0%nat. split; [done|]. split; [congruence|].
          unfold resolvedName. rewrite Hx.
          rewrite (Hun x c (list_elem_of_here _ _) Hx). simpl.
          by rewrite Nat.add_0_r.
        + destruct (IH (S i) Hun' Hmem) as [j Hj]. by apply (Hshift j).
      - destruct (IH (S i) Hun' Hmem) as [j Hj]. by apply (Hshift j). }
    destruct (Hfind (Children cv) 0%nat Hunnamed Hin) as (j & Hj & Hd & Hn).
    by exists j, child.
Qed.

End Properties.

(** ** The properties on the example trees *)

Lemma C1_witness :
  (serializeElementaryType exampleSerializer "" mistypedInt
   = Panics (PanicInterfaceConversion "string" "*big.Int")
   /\ walkOutput exampleSerializer "" mistypedInt
      = Panics (PanicInterfaceConversion "string" "*big.Int"))
  /\ serializeElementaryType exampleSerializer "[0]" (oddKind "bad")
     = Returns AnyNil
         (Some (NewError MsgUnknownABIElementaryType
                  [InsertElementaryType (ElementaryTypeOther "odd");
                   InsertBreadcrumbs "[0]"])).
Proof.
  split.
  - destruct (C1_shape_mismatch_panics exampleSerializer "" mistypedInt
                (mkTypeComponent ElementaryComponent ElementaryTypeInt "n"
                   "int256") eq_refl) as [Hpanics _].
    destruct (Hpanics ShapeInteger) as [Hser Hwalk];
      [reflexivity|discriminate|].
    split; [exact Hser|apply Hwalk; reflexivity].
  - destruct (C1_shape_mismatch_panics exampleSerializer "[0]" (oddKind "bad")
                (mkTypeComponent ElementaryComponent (ElementaryTypeOther "odd")
                   "bad" "odd") eq_refl) as [_ Herror].
    apply Herror. exists "odd"%string. repeat split.
Defined.

(** C1, as stated, fails on an Int node that holds text: the walk does not
    come back with an error, it panics. *)
Lemma C1_counterexample :
  walkOutput exampleSerializer "" mistypedInt
  = Panics (PanicInterfaceConversion "string" "*big.Int")
  /\ ~ failsWithError (walkOutput exampleSerializer "" mistypedInt).
Proof.
  split; [reflexivity|]. intros (out & e & Hfail). discriminate Hfail.
Qed.

Lemma C2_witness :
  (exists f q,
     NumberIfFitsOrBase10StringIntSerializer 9007199254740991 = AnyFloat64 f
     /\ float64_value f = Some q /\ (q == inject_Z 9007199254740991)%Q)
  /\ NumberIfFitsOrBase10StringIntSerializer (-9007199254740992)
     = AnyString "-9007199254740992"
  /\ parse_base10 "-9007199254740992" = Some (-9007199254740992).
Proof.
  split.
  - apply (C2_number_if_fits_or_base10 9007199254740991). simpl. lia.
  - apply (C2_number_if_fits_or_base10 (-9007199254740992)). reflexivity.
Defined.

Lemma C3_witness :
  serializeTuple selfDescribingSerializer "" examplePair
  = Returns
      (AnySlice
         [describedEntry selfDescribingSerializer 0
            (mkTypeComponent ElementaryComponent ElementaryTypeUint "a"
               "uint256")
            (AnyString "1");
          describedEntry selfDescribingSerializer 1
            (mkTypeComponent ElementaryComponent ElementaryTypeUint ""
               "uint256")
            (AnyString "2")])
      None.
Proof.
  apply (C3_self_describing_tuple selfDescribingSerializer "" examplePair
           eq_refl).
  split; [reflexivity|].
  intros [|[|i]] child Hi; simpl in Hi; inversion Hi; subst.
  - exists (mkTypeComponent ElementaryComponent ElementaryTypeUint "a"
              "uint256"), (AnyString "1").
    repeat split.
  - exists (mkTypeComponent ElementaryComponent ElementaryTypeUint ""
              "uint256"), (AnyString "2").
    repeat split.
Defined.

(** C3, as stated, fails on a tuple that has a child without descriptor:
    no entry named [DefaultName(index)] is made for it, the element map
    has no [name] key, and the tuple does not encode at all. *)
Lemma C3_counterexample :
  serializeTuple selfDescribingSerializer "" exampleUndescribedTuple
  = Returns AnyNil
      (Some (NewError MsgBadABITypeComponent
               [InsertComponentValue undescribed]))
  /\ describeChild selfDescribingSerializer 1 undescribed !! "name"%string
     = None
  /\ ~ exists entries,
         serializeTuple selfDescribingSerializer "" exampleUndescribedTuple
         = Returns (AnySlice entries) None.
Proof.
  split; [reflexivity|]. split; [reflexivity|].
  intros [entries Hentries]. discriminate Hentries.
Qed.

Lemma C5_witness :
  exists addr : vec byte 20,
    big_endian (vec_to_list addr) = 258
    /\ length (vec_to_list addr) = 20%nat
    /\ serializeElementaryType exampleSerializer "" (addressNode (-258))
       = Returns (HexByteSerializer (vec_to_list addr)) None.
Proof.
  apply (C5_address_within_160_bits exampleSerializer "" (addressNode (-258))
           (mkTypeComponent ElementaryComponent ElementaryTypeAddress "to"
              "address") (-258));
    reflexivity.
Defined.

(** C5, as stated, fails on an Address node holding 2^160: no 20-byte array
    comes out of it, the encoder panics. *)
Lemma C5_counterexample :
  serializeElementaryType exampleSerializer ""
    (addressNode 1461501637330902918203684832716283019655932542976)
  = Panics PanicBufferTooSmall
  /\ ~ exists addr : vec byte 20,
         serializeElementaryType exampleSerializer ""
           (addressNode 1461501637330902918203684832716283019655932542976)
         = Returns (bs exampleSerializer (vec_to_list addr)) None.
Proof.
  split; [reflexivity|]. intros [addr Haddr]. discriminate Haddr.
Qed.

Lemma C6_witness :
  serializeTuple exampleSerializer "" exampleClash
  = Returns
      (AnyMap (objectOf [("1"%string, AnyString "7");
                         ("1"%string, AnyString "5")]))
      None
  /\ objectOf [("1"%string, AnyString "7"); ("1"%string, AnyString "5")]
     !! "1"%string = Some (AnyString "5").
Proof.
  destruct (C6_objects_tuple exampleSerializer "" exampleClash eq_refl)
    as (Hrun & Hlast & _).
  split.
  - apply Hrun. exists [AnyString "7"; AnyString "5"].
    split; [|reflexivity]. repeat constructor.
  - apply (Hlast [("1"%string, AnyString "7")] "1"%string (AnyString "5") []).
    simpl. apply not_elem_of_nil.
Defined.

Lemma C7_witness :
  serializeTuple exampleSerializer "" exampleFailingTuple
  = Returns AnyNil
      (Some (NewError MsgUnknownABIElementaryType
               [InsertElementaryType (ElementaryTypeOther "odd");
                InsertBreadcrumbs "[bad]"]))
  /\ serializeArray exampleSerializer "" exampleFailingArray
     = Returns AnyNil
         (Some (NewError MsgUnknownABIElementaryType
                  [InsertElementaryType (ElementaryTypeOther "odd");
                   InsertBreadcrumbs "[1]"]))
  /\ SerializeJSONCtx exampleMarshal exampleMarshal exampleSerializer
       exampleFailingTuple
     = Returns None
         (Some (NewError MsgUnknownABIElementaryType
                  [InsertElementaryType (ElementaryTypeOther "odd");
                   InsertBreadcrumbs "[bad]"])).
Proof.
  split; [|split].
  - destruct (C7_first_child_error_aborts exampleMarshal exampleMarshal
                exampleSerializer "" exampleFailingTuple)
      as (_ & _ & Hnamed & _).
    apply (Hnamed [fieldA] (oddKind "bad") [mistypedInt] AnyNil).
    + reflexivity.
    + left. reflexivity.
    + intros [|j] c Hj; simpl in Hj; inversion Hj; subst.
      right. exists (AnyString "1"). reflexivity.
    + discriminate.
    + reflexivity.
  - destruct (C7_first_child_error_aborts exampleMarshal exampleMarshal
                exampleSerializer "" exampleFailingArray)
      as (_ & Harray & _).
    apply (Harray [fieldA] (oddKind "bad") [mistypedInt] AnyNil).
    + reflexivity.
    + intros [|j] c Hj; simpl in Hj; inversion Hj; subst.
      exists (AnyString "1"). reflexivity.
    + reflexivity.
  - destruct (C7_first_child_error_aborts exampleMarshal exampleMarshal
                exampleSerializer "" exampleFailingTuple)
      as (_ & _ & _ & _ & Htop).
    apply (Htop AnyNil). reflexivity.
Defined.

Lemma C8_witness :
  serializeTuple (SetFormattingMode exampleSerializer 7) "" examplePair
  = Returns AnyNil
      (Some (NewError MsgUnknownTupleSerializer [InsertFormattingMode 7])).
Proof.
  apply (C8_unknown_formatting_mode (SetFormattingMode exampleSerializer 7)
           "" examplePair); discriminate.
Defined.



Lemma C10_witness :
  serializeTuple flatSerializer "" examplePair
  = serializeArray flatSerializer "" examplePair.
Proof.
  apply (C10_flat_tuple_is_array flatSerializer "" examplePair). reflexivity.
Defined.

(** ** Further properties on the example trees *)

Lemma X1_witness :
  (exists ds,
     positional 10 ds 42
     /\ Base10StringIntSerializer (-42)
        = AnyString ("-" +:+ digits_text ds)%string
     /\ parse_base10 ("-" +:+ digits_text ds)%string = Some (-42))
  /\ 7 = 7.
Proof.
  split.
  - apply (proj1 X1_base10_string_exact (-42)).
  - apply (proj2 X1_base10_string_exact 7 7). reflexivity.
Defined.

Lemma X2_witness :
  (exists ds,
     positional 16 ds 255
     /\ HexIntSerializer0xPrefix (-255)
        = AnyString ("-" +:+ "0x" +:+ digits_text ds)%string
     /\ parse_base16_0x ("-" +:+ "0x" +:+ digits_text ds)%string
        = Some (-255))
  /\ 255 = 255.
Proof.
  destruct X2_hex_int_0x_exact as (Hback & _ & Hinj).
  split; [apply (Hback (-255))|apply (Hinj 255 255); reflexivity].
Defined.

Lemma X3_witness :
  (HexByteSerializer [Byte.x00; Byte.xff] = AnyString "00ff"
   /\ HexByteSerializer0xPrefix [Byte.x00; Byte.xff] = AnyString "0x00ff"
   /\ Forall (fun d => 0 <= d < 16) [0; 0; 15; 15]
   /\ String.length "00ff" = 4%nat
   /\ hex_decode "00ff" = Some [Byte.x00; Byte.xff])
  /\ [Byte.x0a] = [Byte.x0a].
Proof.
  destruct X3_hex_bytes_exact as (Hback & _ & Hinj).
  split; [apply (Hback [Byte.x00; Byte.xff])|].
  apply (Hinj [Byte.x0a] [Byte.x0a]). reflexivity.
Defined.

Lemma X4_witness :
  NumericDefaultNameGenerator 10 = "10"%string /\ 10 = 10.
Proof.
  split; [reflexivity|].
  apply (X4_numeric_default_names_distinct 10 10). reflexivity.
Defined.

Lemma X5_witness :
  NumberIfFitsOrBase10StringIntSerializer 9007199254740992
  = AnyString "9007199254740992"
  /\ 9007199254740992 = 9007199254740992.
Proof.
  split; [reflexivity|].
  apply (X5_number_if_fits_injective 9007199254740992 9007199254740992).
  reflexivity.
Defined.

Lemma X6_witness :
  exists b,
    serializeElementaryType exampleSerializer "" (boolNode (-18446744073709551615))
    = Returns (AnyBool b) None
    /\ (b = true
        <-> (0 <= -18446744073709551615
             /\ (-18446744073709551615) mod 2 ^ 64 = 1)
            \/ (-18446744073709551615 < 0
                /\ (- -18446744073709551615) mod 2 ^ 64 = 2 ^ 64 - 1))
    /\ (- 2 ^ 63 <= -18446744073709551615 < 2 ^ 63 ->
        (b = true <-> -18446744073709551615 = 1)).
Proof.
  apply (X6_bool_exact exampleSerializer "" (boolNode (-18446744073709551615))
           (mkTypeComponent ElementaryComponent ElementaryTypeBool "ok" "bool")
           (-18446744073709551615));
    reflexivity.
Defined.

Lemma X7_witness :
  serializeElementaryType exampleSerializer ""
    (addressNode (-1461501637330902918203684832716283019655932542976))
  = Panics PanicBufferTooSmall
  /\ walkOutput exampleSerializer ""
       (addressNode (-1461501637330902918203684832716283019655932542976))
     = Panics PanicBufferTooSmall.
Proof.
  apply (X7_address_overflow_panics exampleSerializer ""
           (addressNode (-1461501637330902918203684832716283019655932542976))
           (mkTypeComponent ElementaryComponent ElementaryTypeAddress "to"
              "address")
           (-1461501637330902918203684832716283019655932542976));
    first [reflexivity | vm_compute; discriminate].
Defined.

Lemma X8_witness :
  exists str bytes,
    serializeElementaryType exampleSerializer "" (addressNode (-258))
    = Returns (AnyString str) None
    /\ String.length str = 40%nat
    /\ hex_decode str = Some bytes
    /\ length bytes = 20%nat
    /\ big_endian bytes = Z.abs (-258).
Proof.
  apply (X8_default_address_text (fun _ => "0"%string) ""
           (addressNode (-258))
           (mkTypeComponent ElementaryComponent ElementaryTypeAddress "to"
              "address") (-258));
    reflexivity.
Defined.

Lemma X9_witness :
  sameButInserts (walkOutput exampleSerializer "" exampleFailingTuple)
    (walkOutput exampleSerializer "args" exampleFailingTuple)
  /\ walkOutput exampleSerializer "args" examplePair
     = Returns
         (AnyMap (objectOf [("a"%string, AnyString "1");
                            ("1"%string, AnyString "2")]))
         None
  /\ walkOutput exampleSerializer "args" mistypedInt
     = Panics (PanicInterfaceConversion "string" "*big.Int")
  /\ exists inserts',
       walkOutput exampleSerializer "args" exampleFailingTuple
       = Returns AnyNil (Some (NewError MsgUnknownABIElementaryType inserts')).
Proof.
  split; [apply (X9_breadcrumbs_do_not_change_the_outcome exampleSerializer
                   "" "args" exampleFailingTuple)|].
  split; [apply (X9_breadcrumbs_do_not_change_the_outcome exampleSerializer
                   "" "args" examplePair); reflexivity|].
  split; [apply (X9_breadcrumbs_do_not_change_the_outcome exampleSerializer
                   "" "args" mistypedInt); reflexivity|].
  destruct (X9_breadcrumbs_do_not_change_the_outcome exampleSerializer
              "" "args" exampleFailingTuple) as (_ & _ & _ & Herr).
  eapply Herr. reflexivity.
Defined.

Lemma X10_witness :
  SerializeJSONCtx exampleMarshal exampleMarshal
    (SetPretty exampleSerializer true) examplePair
  = Returns (Some []) None.
Proof.
  destruct (X10_pretty_only_selects_the_marshaller exampleMarshal
              exampleMarshal exampleSerializer examplePair true)
    as (_ & _ & Hjson).
  apply (Hjson (AnyMap (objectOf [("a"%string, AnyString "1");
                                  ("1"%string, AnyString "2")]))).
  reflexivity.
Defined.

Lemma X11_witness :
  walkOutput (SetDefaultNameGenerator flatSerializer (fun _ => "x"%string))
    "" examplePair
  = walkOutput flatSerializer "" examplePair.
Proof.
  apply (X11_flat_arrays_ignore_default_names flatSerializer "" examplePair
           (fun _ => "x"%string)).
  reflexivity.
Defined.


Lemma X13_witness :
  exists n c,
    n ∈ nodes exampleArrayOfTuples /\ Component n = Some c
    /\ Component_ComponentType c = ElementaryComponent
    /\ Component_ElementaryType c = ElementaryTypeOther "odd"
    /\ walkOutput exampleSerializer "" exampleArrayOfTuples
       = Returns AnyNil
           (Some (NewError MsgUnknownABIElementaryType
                    [InsertElementaryType (Component_ElementaryType c);
                     InsertBreadcrumbs "[0][f]"])).
Proof.
  destruct (X13_errors_name_their_cause exampleArrayOfTuples exampleSerializer
              "" AnyNil
              (NewError MsgUnknownABIElementaryType
                 [InsertElementaryType (ElementaryTypeOther "odd");
                  InsertBreadcrumbs "[0][f]"])
              eq_refl)
    as [(n & _ & _ & [=])
       |[(n & c & k & _ & _ & _ & [=])
        |[(n & c & name & suffix & Hn & Hc & Hct & Het & [= <- _])
         |(n & c & _ & _ & _ & _ & [=])]]].
  exists n, c. repeat split; try assumption. rewrite Het. reflexivity.
Defined.


Lemma X15_witness :
  walkOutput exampleSerializer "" examplePanickingTuple
  = Panics (PanicInterfaceConversion "string" "*big.Int")
  /\ SerializeInterfaceCtx exampleSerializer examplePanickingTuple
     = Panics (PanicInterfaceConversion "string" "*big.Int")
  /\ SerializeJSONCtx exampleMarshal exampleMarshal exampleSerializer
       examplePanickingTuple
     = Panics (PanicInterfaceConversion "string" "*big.Int").
Proof.
  destruct (X15_first_child_panic_aborts exampleMarshal exampleMarshal
              exampleSerializer "" examplePanickingTuple
              (mkTypeComponent TupleComponent (ElementaryTypeOther "") ""
                 "(uint256,int256,odd)")
              [fieldA] mistypedInt [oddKind "bad"] "[n]"
              (PanicInterfaceConversion "string" "*big.Int")
              eq_refl eq_refl) as [Hwalk Htop].
  - right. right. split; [reflexivity|left; reflexivity].
  - intros f Hf. apply list_elem_of_singleton in Hf as ->.
    right. exists ""%string, (AnyString "1"). reflexivity.
  - reflexivity.
  - split; [exact Hwalk|]. apply Htop. reflexivity.
Defined.

Lemma X16_witness :
  walkOutput exampleSerializer "" exampleUndescribedArray
  = Returns AnyNil
      (Some (NewError MsgBadABITypeComponent
               [InsertComponentValue undescribed])).
Proof.
  apply (X16_child_without_descriptor_fails exampleSerializer ""
           exampleUndescribedArray
           (mkTypeComponent DynamicArrayComponent (ElementaryTypeOther "") ""
              "uint256[]")
           [fieldA] undescribed []).
  - reflexivity.
  - reflexivity.
  - right. left. reflexivity.
  - intros f Hf. apply list_elem_of_singleton in Hf as ->.
    exists ""%string, (AnyString "1"). reflexivity.
  - reflexivity.
Defined.

Lemma X17_witness :
  walkOutput exampleSerializer "" exampleArray
  = Returns (AnySlice [AnyString "1"; AnyString "2"]) None.
Proof.
  destruct (X17_array_walk exampleSerializer "" exampleArray
              (mkTypeComponent DynamicArrayComponent (ElementaryTypeOther "")
                 "" "uint256[]")
              eq_refl (or_intror eq_refl)) as (_ & Hentries & _).
  apply Hentries. split; [reflexivity|].
  intros [|[|j]] child Hj; simpl in Hj; inversion Hj; subst.
  - exists (AnyString "1"). split; reflexivity.
  - exists (AnyString "2"). split; reflexivity.
Defined.

Lemma X18_witness :
  walkOutput exampleSerializer "" exampleEmptyTuple = Returns (AnyMap ∅) None
  /\ walkOutput selfDescribingSerializer "" exampleEmptyTuple
     = Returns (AnySlice []) None.
Proof.
  split.
  - apply (X18_empty_tuple exampleSerializer "" exampleEmptyTuple
             (mkTypeComponent TupleComponent (ElementaryTypeOther "") "" "()"));
      reflexivity.
  - apply (X18_empty_tuple selfDescribingSerializer "" exampleEmptyTuple
             (mkTypeComponent TupleComponent (ElementaryTypeOther "") "" "()"));
      [reflexivity..|right; reflexivity].
Defined.

Lemma X19_witness :
  (is_Some (objectOf [("a"%string, AnyString "1"); ("1"%string, AnyString "2")]
            !! "a"%string)
   <-> "a"%string ∈ (namedChildren exampleSerializer (Children examplePair)).*1)
  /\ size (objectOf [("a"%string, AnyString "1"); ("1"%string, AnyString "2")])
     = 2%nat.
Proof.
  destruct (X19_object_keys exampleSerializer "" examplePair
              (objectOf [("a"%string, AnyString "1");
                         ("1"%string, AnyString "2")])
              eq_refl eq_refl) as [Hkeys Hall].
  split; [apply Hkeys|].
  apply Hall. apply (bool_decide_unpack _). vm_compute. reflexivity.
Defined.

Lemma X20_witness :
  exists v,
    walkOutput exampleSerializer (Sprintf_s_s "" "1") fieldAnonymous
    = Returns v None
    /\ objectOf [("0"%string, AnyString "7"); ("1"%string, AnyString "2")]
       !! "1"%string = Some v.
Proof.
  destruct (X20_unnamed_fields_are_all_kept exampleSerializer ""
              exampleUnnamedPair
              (objectOf [("0"%string, AnyString "7");
                         ("1"%string, AnyString "2")])
              eq_refl) as [Hkept _].
  - intros a b Hab. apply Nat2Z.inj.
    apply (f_equal parse_base10) in Hab.
    unfold exampleSerializer, NewSerializer, dn, NumericDefaultNameGenerator
      in Hab.
    rewrite !parse_base10_BigInt_String in Hab. congruence.
  - intros child c Hchild Hc. simpl in Hchild.
    apply elem_of_cons in Hchild as [->|Hchild];
      [by inversion Hc|].
    apply list_elem_of_singleton in Hchild as ->. by inversion Hc.
  - reflexivity.
  - apply (Hkept 1%nat fieldAnonymous); [reflexivity|discriminate].
Defined.
